(** * AQI derivation engine of [dashboard.py]

    A shallow embedding of the part of [dashboard.py] that derives the Air
    Quality Index of a sensor reading: the two breakpoint tables, the two
    interpolating calculators [calculate_aqi_pm25] and [calculate_aqi_co], the
    row-wise maximum that gives the overall index, and the [np.select] cascade
    that gives the overall category and colour.

    Numbers.  The script computes on Python floats (IEEE 754 binary64).  The
    calculators are written once, over the interface [PyNumber] that lists the
    operations the source applies to a number, and the interface is
    instantiated twice:
    - [float], Rocq's primitive binary64 numbers: the arithmetic the script
      really runs, bit for bit;
    - [Q], exact rationals: the arithmetic in which the formulas of the
      specification are read.

    Exceptions.  A Python exception is a value [inl e] of the error monad
    [sum exn]; a normal return is [inr v]. *)

From Stdlib Require Import ZArith QArith Qround Lqa Floats Uint63 List String Bool Lia.
From ExtLib Require Import Structures.Monad Data.Monads.EitherMonad.
Import ListNotations.
Import MonadNotation.

#[local] Set Warnings "-inexact-float".
#[local] Open Scope monad_scope.
#[local] Open Scope string_scope.
#[local] Open Scope Z_scope.

(** ** Python values *)

(** The exceptions the modelled code can raise: [/] on a zero divisor, and
    [round] on a NaN or on an infinity. *)
Inductive exn : Type :=
| ZeroDivisionError
| ValueError
| OverflowError.

(** A computation that returns an [A] or raises. *)
Definition py (A : Type) : Type := sum exn A.

#[global] Instance Monad_py : Monad py := Monad_either exn.

Definition raise {A : Type} (e : exn) : py A := inl e.

(** The operations of the source on numbers.  [literal] reads a numeric
    literal of the source text (an integer such as [12] or a decimal such as
    [12.1], given as the exact rational it denotes). *)
Class PyNumber (T : Type) : Type := {
  literal : Q -> T;
  num_le : T -> T -> bool;
  num_lt : T -> T -> bool;
  num_sub : T -> T -> T;
  num_mul : T -> T -> T;
  num_add : T -> T -> T;
  num_truediv : T -> T -> py T;
  num_round : T -> py Z
}.

(** An integer of the source text. *)
Definition int {T : Type} `{PyNumber T} (z : Z) : T := literal (inject_Z z).

Declare Scope py_scope.
Delimit Scope py_scope with py.
Infix "<=?" := num_le (at level 70, no associativity) : py_scope.
Infix "<?" := num_lt (at level 70, no associativity) : py_scope.
Infix "-" := num_sub : py_scope.
Infix "*" := num_mul : py_scope.
Infix "+" := num_add : py_scope.

(** ** Rounding *)

(** [round(x)] of Python 3 on an exact value: the nearest integer, a tie going
    to the even neighbour. *)
Definition round_half_even (q : Q) : Z :=
  let f := Qfloor q in
  match Qcompare (q - inject_Z f) (1 # 2) with
  | Lt => f
  | Gt => f + 1
  | Eq => if Z.even f then f else f + 1
  end.

(** Rounding to the nearest integer with a tie going up, as the specification
    words it. *)
Definition round_half_up (q : Q) : Z := Qfloor (q + (1 # 2)).

(** ** The breakpoint tables *)

(** One row of a [breakpoints] list of the source: the tuple
    [(bp_low, bp_high, aqi_low, aqi_high, category, color)].  The two
    concentrations are the literals written in the source, integers or
    decimals; the two indices are integers. *)
Record breakpoint : Type := Breakpoint {
  bp_low : Q;
  bp_high : Q;
  aqi_low : Z;
  aqi_high : Z;
  category : string;
  color : string
}.

Definition breakpoints_pm25 : list breakpoint := [
  Breakpoint 0%Q 12%Q 0 50 "Bueno" "#00E400";
  Breakpoint 12.1%Q 35.4%Q 51 100 "Moderado" "#FFFF00";
  Breakpoint 35.5%Q 55.4%Q 101 150 "Insalubre para Grupos Sensibles" "#FF7E00";
  Breakpoint 55.5%Q 150.4%Q 151 200 "Insalubre" "#FF0000";
  Breakpoint 150.5%Q 250.4%Q 201 300 "Muy Insalubre" "#99004C";
  Breakpoint 250.5%Q 500.4%Q 301 500 "Peligroso" "#7E0023"
].

Definition breakpoints_co : list breakpoint := [
  Breakpoint 0%Q 4.4%Q 0 50 "Bueno" "#00E400";
  Breakpoint 4.5%Q 9.4%Q 51 100 "Moderado" "#FFFF00";
  Breakpoint 9.5%Q 12.4%Q 101 150 "Insalubre para Grupos Sensibles" "#FF7E00";
  Breakpoint 12.5%Q 15.4%Q 151 200 "Insalubre" "#FF0000";
  Breakpoint 15.5%Q 30.4%Q 201 300 "Muy Insalubre" "#99004C";
  Breakpoint 30.5%Q 50.4%Q 301 500 "Peligroso" "#7E0023"
].

(** What a calculator returns: the tuple [(aqi, category, color)], where [aqi]
    is an [int] or [None]. *)
Definition aqi_result : Type := (option Z * string * string)%type.

Definition out_of_range : aqi_result := (None, "Fuera de rango", "#000000").

(** ** The calculators *)

Section Calculator.

Context {T : Type} `{PyNumber T}.

(** The test of the loop body: [bp_low <= x <= bp_high]. *)
Definition in_segment (x : T) (bp : breakpoint) : bool :=
  (literal (bp_low bp) <=? x)%py && (x <=? literal (bp_high bp))%py.

(** The value the source binds to [aqi]:
    [((aqi_high - aqi_low) / (bp_high - bp_low)) * (x - bp_low) + aqi_low]. *)
Definition interpolate (x : T) (bp : breakpoint) : py T :=
  slope <- num_truediv (int (aqi_high bp) - int (aqi_low bp))%py
                       (literal (bp_high bp) - literal (bp_low bp))%py ;;
  ret (slope * (x - literal (bp_low bp)) + int (aqi_low bp))%py.

(** The [for] loop of both calculators, with the [return] after it. *)
Fixpoint scan_breakpoints (breakpoints : list breakpoint) (x : T) : py aqi_result :=
  match breakpoints with
  | [] => ret out_of_range
  | bp :: rest =>
      if in_segment x bp then
        aqi <- interpolate x bp ;;
        index <- num_round aqi ;;
        ret (Some index, category bp, color bp)
      else scan_breakpoints rest x
  end.

Definition calculate_aqi_pm25 (pm25 : T) : py aqi_result :=
  scan_breakpoints breakpoints_pm25 pm25.

Definition calculate_aqi_co (co : T) : py aqi_result :=
  scan_breakpoints breakpoints_co co.

End Calculator.

(** ** Exact arithmetic *)

(** Python's arithmetic on exact rationals: [/] raises on a zero divisor,
    [round] never raises. *)
#[global] Instance PyNumber_Q : PyNumber Q := {
  literal q := q;
  num_le := Qle_bool;
  num_lt a b := negb (Qle_bool b a);
  num_sub := Qminus;
  num_mul := Qmult;
  num_add := Qplus;
  num_truediv a b := if Qeq_bool b 0 then raise ZeroDivisionError else ret (a / b)%Q;
  num_round q := ret (round_half_even q)
}.

(** ** Binary64 arithmetic *)

Module Binary64.

#[local] Open Scope float_scope.

(** An integer of the source text as a float. *)
Definition of_Z (z : Z) : float :=
  match z with
  | Z0 => 0
  | Zpos _ => of_uint63 (Uint63.of_Z z)
  | Zneg p => - of_uint63 (Uint63.of_Z (Zpos p))
  end.

(** A literal of the source text as a float: the float nearest to the
    decimal, which a correctly rounded quotient of its numerator and
    denominator gives while both are below [2^53]. *)
Definition of_literal (q : Q) : float := of_Z (Qnum q) / of_Z (Zpos (Qden q)).

(** The exact value of a float, when it has one. *)
Definition value (x : float) : option Q :=
  match Prim2SF x with
  | S754_zero _ => Some 0%Q
  | S754_finite s m e =>
      Some match e with
           | Z0 => inject_Z (cond_Zopp s (Zpos m))
           | Zpos p => inject_Z (cond_Zopp s (Zpos m) * 2 ^ Zpos p)
           | Zneg p => cond_Zopp s (Zpos m) # 2 ^ p
           end
  | S754_infinity _ | S754_nan => None
  end.

(** [x / y] on floats: [ZeroDivisionError] on a zero of either sign. *)
Definition truediv (x y : float) : py float :=
  if y =? 0 then raise ZeroDivisionError else ret (x / y).

(** [round(x)] on a float: [ValueError] on a NaN, [OverflowError] on an
    infinity, else the exact value rounded half to even. *)
Definition round (x : float) : py Z :=
  match value x with
  | Some q => ret (round_half_even q)
  | None => if is_nan x then raise ValueError else raise OverflowError
  end.

(** A float, as the specification of the primitive operations sees it, is
    not below zero: a zero of either sign, a positive number, the positive
    infinity or a NaN. *)
Definition sf_nonneg (f : spec_float) : bool :=
  match f with
  | S754_finite true _ _ | S754_infinity true => false
  | _ => true
  end.

(** A missing cell of the input file, as [pd.read_csv] reads it. *)
Definition NaN : float := nan.

End Binary64.

#[global] Instance PyNumber_float : PyNumber float := {
  literal := Binary64.of_literal;
  num_le := PrimFloat.leb;
  num_lt := PrimFloat.ltb;
  num_sub := PrimFloat.sub;
  num_mul := PrimFloat.mul;
  num_add := PrimFloat.add;
  num_truediv := Binary64.truediv;
  num_round := Binary64.round
}.

(** ** The combination of the pollutants of a reading *)

(** One row of the input file. *)
Record reading (T : Type) : Type := Reading {
  timestamp : string;
  pm25 : T;
  pm10 : T;
  co : T;
  temp : T;
  humidity : T
}.

Arguments Reading {T}.
Arguments timestamp {T}.
Arguments pm25 {T}.
Arguments pm10 {T}.
Arguments co {T}.
Arguments temp {T}.
Arguments humidity {T}.

(** The columns the script adds to a row of the data frame. *)
Module Df.

Record columns : Type := Columns {
  aqi_pm25 : option Z;
  category_pm25 : string;
  color_pm25 : string;
  aqi_co : option Z;
  category_co : string;
  color_co : string;
  aqi : option Z;
  category : string;
  color : string
}.

End Df.

(** [df[[...]].max(axis=1)] on one row: the largest cell, missing cells
    skipped; missing when every cell is. *)
Fixpoint row_max (cells : list (option Z)) : option Z :=
  match cells with
  | [] => None
  | None :: rest => row_max rest
  | Some i :: rest =>
      match row_max rest with
      | None => Some i
      | Some m => Some (Z.max i m)
      end
  end.

(** [np.select(conditions, choices, default)] on one row: the choice of the
    first condition that holds. *)
Fixpoint np_select {A : Type} (conds : list bool) (choices : list A) (default : A) : A :=
  match conds, choices with
  | c :: conds', x :: choices' => if c then x else np_select conds' choices' default
  | _, _ => default
  end.

(** [df['aqi'] <= bound] on one row: false on a missing cell. *)
Definition aqi_le (aqi : option Z) (bound : Z) : bool :=
  match aqi with
  | Some i => i <=? bound
  | None => false
  end.

Definition conditions (aqi : option Z) : list bool :=
  [aqi_le aqi 50; aqi_le aqi 100; aqi_le aqi 150; aqi_le aqi 200; aqi_le aqi 300; aqi_le aqi 500].

Definition categories : list string :=
  ["Bueno"; "Moderado"; "Insalubre para Grupos Sensibles"; "Insalubre"; "Muy Insalubre"; "Peligroso"].

Definition colors : list string :=
  ["#00E400"; "#FFFF00"; "#FF7E00"; "#FF0000"; "#99004C"; "#7E0023"].

Section Combiner.

Context {T : Type} `{PyNumber T}.

(** The columns derived from one row: the two calculators, the row-wise
    maximum and the two [np.select]. *)
Definition derive (r : reading T) : py Df.columns :=
  '(aqi_pm25, category_pm25, color_pm25) <- calculate_aqi_pm25 (pm25 r) ;;
  '(aqi_co, category_co, color_co) <- calculate_aqi_co (co r) ;;
  let aqi := row_max [aqi_pm25; aqi_co] in
  ret (Df.Columns aqi_pm25 category_pm25 color_pm25
                  aqi_co category_co color_co
                  aqi
                  (np_select (conditions aqi) categories "Fuera de rango")
                  (np_select (conditions aqi) colors "#000000")).

End Combiner.

(** ** The derivation over the whole data frame *)

(** [Series.apply(f)]: [f] on each cell, from the first row on; the first
    exception ends it. *)
Fixpoint series_apply {A B : Type} (f : A -> py B) (column : list A) : py (list B) :=
  match column with
  | [] => ret []
  | cell :: rest =>
      y <- f cell ;;
      ys <- series_apply f rest ;;
      ret (y :: ys)
  end.

(** [a, b, c = zip( *results )]: the three columns of a series of triples.
    On an empty series [zip] yields nothing, and unpacking nothing into three
    targets raises [ValueError]. *)
Definition unzip3 {A B C : Type} (results : list (A * B * C))
  : py (list A * list B * list C) :=
  match results with
  | [] => raise ValueError
  | _ :: _ =>
      ret (map (fun t => fst (fst t)) results,
           map (fun t => snd (fst t)) results,
           map snd results)
  end.

(** The rows of the nine derived columns, read side by side. *)
Definition frame_rows (aqi_pm25 : list (option Z)) (category_pm25 color_pm25 : list string)
           (aqi_co : list (option Z)) (category_co color_co : list string)
           (aqi : list (option Z)) (category color : list string) : list Df.columns :=
  map (fun '(a1, c1, k1, a2, c2, k2, a, c, k) => Df.Columns a1 c1 k1 a2 c2 k2 a c k)
      (combine (combine (combine (combine (combine (combine (combine (combine
         aqi_pm25 category_pm25) color_pm25) aqi_co) category_co) color_co)
         aqi) category) color).

Section Frame.

Context {T : Type} `{PyNumber T}.

(** The block that adds the AQI columns to the data frame: the PM2.5
    calculator applied down its column, then the CO calculator down its own,
    then the row-wise maximum and the two [np.select]. *)
Definition add_aqi_columns (df : list (reading T)) : py (list Df.columns) :=
  results_pm25 <- series_apply calculate_aqi_pm25 (map pm25 df) ;;
  '(aqi_pm25, category_pm25, color_pm25) <- unzip3 results_pm25 ;;
  results_co <- series_apply calculate_aqi_co (map co df) ;;
  '(aqi_co, category_co, color_co) <- unzip3 results_co ;;
  let aqi := map (fun cells => row_max [fst cells; snd cells]) (combine aqi_pm25 aqi_co) in
  let category := map (fun a => np_select (conditions a) categories "Fuera de rango") aqi in
  let color := map (fun a => np_select (conditions a) colors "#000000") aqi in
  ret (frame_rows aqi_pm25 category_pm25 color_pm25 aqi_co category_co color_co
                  aqi category color).

End Frame.

(** The derived row of a pair of per-pollutant results. *)
Definition derived_row (p c : aqi_result) : Df.columns :=
  let aqi := row_max [fst (fst p); fst (fst c)] in
  Df.Columns (fst (fst p)) (snd (fst p)) (snd p) (fst (fst c)) (snd (fst c)) (snd c)
             aqi
             (np_select (conditions aqi) categories "Fuera de rango")
             (np_select (conditions aqi) colors "#000000").

(** ** The rest of the page *)

(** [color_aqi(val)], the style of a cell of the AQI column of the table of
    recent data; every comparison with a missing cell (a NaN) is false. *)
Definition color_aqi (val : option Z) : string :=
  if aqi_le val 50 then "background-color: #00E400"
  else if aqi_le val 100 then "background-color: #FFFF00"
  else if aqi_le val 150 then "background-color: #FF7E00"
  else if aqi_le val 200 then "background-color: #FF0000"
  else if aqi_le val 300 then "background-color: #99004C"
  else "background-color: #7E0023".

(** The order of the categories in the bar chart of their distribution. *)
Definition category_order : list string :=
  ["Bueno"; "Moderado"; "Insalubre para Grupos Sensibles"; "Insalubre"; "Muy Insalubre"; "Peligroso"].

(** The colour of each category in that chart. *)
Definition colors_dict : list (string * string) :=
  [("Bueno", "#00E400");
   ("Moderado", "#FFFF00");
   ("Insalubre para Grupos Sensibles", "#FF7E00");
   ("Insalubre", "#FF0000");
   ("Muy Insalubre", "#99004C");
   ("Peligroso", "#7E0023")].

(** [pd.Categorical(values, categories=...)] on one value: a value that is
    not one of the categories becomes missing. *)
Definition categorical (cats : list string) (value : string) : option string :=
  if existsb (String.eqb value) cats then Some value else None.

(** [color_discrete_map[key]], when the key is there. *)
Fixpoint dict_get (dict : list (string * string)) (key : string) : option string :=
  match dict with
  | [] => None
  | (k, v) :: rest => if String.eqb key k then Some v else dict_get rest key
  end.

Section Kpi.

Context {T : Type} `{PyNumber T}.

(** The colour and the category of the tile of the average AQI: the pair
    [(aqi_color, aqi_category)] that the [if]/[elif] chain on [avg_aqi]
    assigns. *)
Definition kpi (avg_aqi : T) : string * string :=
  if (avg_aqi <=? int 50)%py then ("#00E400", "Bueno")
  else if (avg_aqi <=? int 100)%py then ("#FFFF00", "Moderado")
  else if (avg_aqi <=? int 150)%py then ("#FF7E00", "Insalubre para Grupos Sensibles")
  else if (avg_aqi <=? int 200)%py then ("#FF0000", "Insalubre")
  else if (avg_aqi <=? int 300)%py then ("#99004C", "Muy Insalubre")
  else ("#7E0023", "Peligroso").

End Kpi.

(** The rank of a category in [category_order], the least severe first. *)
Fixpoint severity_rank_in (order : list string) (cat : string) : nat :=
  match order with
  | [] => O
  | c :: rest => if String.eqb cat c then O else S (severity_rank_in rest cat)
  end.

Definition severity_rank (cat : string) : nat := severity_rank_in category_order cat.

(** ** The filter on dates *)

(** A [datetime.date]; Python compares two of them as the triples of their
    year, month and day. *)
Record date : Type := Date {
  year : Z;
  month : Z;
  day : Z
}.

Definition date_le (a b : date) : bool :=
  (year a <? year b)
  || ((year a =? year b)
      && ((month a <? month b) || ((month a =? month b) && (day a <=? day b)))).

Section DateFilter.

(** A row of the data frame, with its cell of the column [date]. *)
Variable row : Type.
Variable row_date : row -> date.

(** The earliest and the latest date of the frame; an empty frame has none. *)
Definition min_date (df : list row) : option date :=
  match df with
  | [] => None
  | r :: rest =>
      Some (fold_left (fun m d => if date_le d m then d else m) (map row_date rest) (row_date r))
  end.

Definition max_date (df : list row) : option date :=
  match df with
  | [] => None
  | r :: rest =>
      Some (fold_left (fun m d => if date_le m d then d else m) (map row_date rest) (row_date r))
  end.

(** [filtered_df]: the rows whose date is within the two dates of the range
    when the range has two dates, the whole frame otherwise. *)
Definition filtered_df (date_range : list date) (df : list row) : list row :=
  match date_range with
  | [start_date; end_date] =>
      filter (fun r => date_le start_date (row_date r) && date_le (row_date r) end_date) df
  | _ => df
  end.

End DateFilter.

Arguments min_date {row}.
Arguments max_date {row}.
Arguments filtered_df {row}.

(** ** The vocabulary of the specification *)

(** The severity categories, least severe first. *)
Inductive Severity : Type :=
| Good
| Moderate
| UnhealthyForSensitive
| Unhealthy
| VeryUnhealthy
| Hazardous.

(** A category of a result: a severity, or out of range. *)
Inductive Category : Type :=
| Band (s : Severity)
| OutOfRange.

(** The string the script writes for a category. *)
Definition category_label (c : Category) : string :=
  match c with
  | Band Good => "Bueno"
  | Band Moderate => "Moderado"
  | Band UnhealthyForSensitive => "Insalubre para Grupos Sensibles"
  | Band Unhealthy => "Insalubre"
  | Band VeryUnhealthy => "Muy Insalubre"
  | Band Hazardous => "Peligroso"
  | OutOfRange => "Fuera de rango"
  end.

(** The colour tag of a category; black is the tag of no category. *)
Definition category_color (c : Category) : string :=
  match c with
  | Band Good => "#00E400"
  | Band Moderate => "#FFFF00"
  | Band UnhealthyForSensitive => "#FF7E00"
  | Band Unhealthy => "#FF0000"
  | Band VeryUnhealthy => "#99004C"
  | Band Hazardous => "#7E0023"
  | OutOfRange => "#000000"
  end.

(** The general AQI thresholds, as the specification lists them: 0-50 Good,
    51-100 Moderate, 101-150 UnhealthyForSensitive, 151-200 Unhealthy,
    201-300 VeryUnhealthy, 301-500 Hazardous. *)
Definition general_band (index : Z) : Category :=
  if (0 <=? index) && (index <=? 50) then Band Good
  else if (51 <=? index) && (index <=? 100) then Band Moderate
  else if (101 <=? index) && (index <=? 150) then Band UnhealthyForSensitive
  else if (151 <=? index) && (index <=? 200) then Band Unhealthy
  else if (201 <=? index) && (index <=? 300) then Band VeryUnhealthy
  else if (301 <=? index) && (index <=? 500) then Band Hazardous
  else OutOfRange.

(** The category of an overall index that may be undefined. *)
Definition reclassify (index : option Z) : Category :=
  match index with
  | Some i => general_band i
  | None => OutOfRange
  end.

(** The pollutants the script derives an index for. *)
Inductive pollutant : Type :=
| PM25
| CO.

(** The per-pollutant results of a row: for each pollutant, the triple its
    three columns hold. *)
Definition per_pollutant (d : Df.columns) : list (pollutant * aqi_result) :=
  [(PM25, (Df.aqi_pm25 d, Df.category_pm25 d, Df.color_pm25 d));
   (CO, (Df.aqi_co d, Df.category_co d, Df.color_co d))].

(** ** Notions the properties are stated with *)

Section Notions.

Context {T : Type} `{PyNumber T}.

(** The segment the loop selects: the first one, in the order of the table,
    whose test holds. *)
Definition first_match (breakpoints : list breakpoint) (x : T) : option breakpoint :=
  find (in_segment x) breakpoints.

(** A concentration is covered by a table when some segment holds it. *)
Definition covered (breakpoints : list breakpoint) (x : T) : bool :=
  existsb (in_segment x) breakpoints.

(** The gaps of a table: the upper bound of a segment with the lower bound of
    the next one. *)
Fixpoint gaps (breakpoints : list breakpoint) : list (Q * Q) :=
  match breakpoints with
  | [] => []
  | bp :: rest =>
      match rest with
      | [] => []
      | next :: _ => (bp_high bp, bp_low next) :: gaps rest
      end
  end.

(** [x] lies strictly inside a gap. *)
Definition in_gap (x : T) (gap : Q * Q) : bool :=
  (literal (fst gap) <? x)%py && (x <? literal (snd gap))%py.

(** A table ascends: each segment is non-empty and ends strictly below the
    start of the next one. *)
Fixpoint ascending (breakpoints : list breakpoint) : bool :=
  match breakpoints with
  | [] => true
  | bp :: rest =>
      (literal (bp_low bp) <=? literal (bp_high bp))%py
      && match rest with
         | [] => true
         | next :: _ => (literal (bp_high bp) <? literal (bp_low next))%py
         end
      && ascending rest
  end.

(** [x] is not below zero. *)
Definition nonneg (x : T) : bool := negb (x <? int 0)%py.

(** The slope of a segment and its lower index are not below zero. *)
Definition rising (bp : breakpoint) : bool :=
  match num_truediv (int (aqi_high bp) - int (aqi_low bp))%py
                    (literal (bp_high bp) - literal (bp_low bp))%py with
  | inr slope => nonneg slope && nonneg (int (aqi_low bp))
  | inl _ => false
  end.

End Notions.

(** The interpolation formula of the specification, in exact arithmetic:
    [(indexHigh - indexLow) / (concHigh - concLow) * (c - concLow) + indexLow]. *)
Definition linear (c : Q) (bp : breakpoint) : Q :=
  ((inject_Z (aqi_high bp) - inject_Z (aqi_low bp)) / (bp_high bp - bp_low bp)
   * (c - bp_low bp) + inject_Z (aqi_low bp))%Q.

(** A segment a table can hold: not empty, its indices in order. *)
Definition proper (bp : breakpoint) : Prop :=
  (bp_low bp < bp_high bp)%Q /\ aqi_low bp <= aqi_high bp.

(** What the general properties need of an arithmetic: the order is
    transitive and strict, subtraction, product, sum and rounding keep a
    number from going below zero, and the two tables, read in this arithmetic,
    ascend and rise. *)
Class PyNumberLaws (T : Type) `{PyNumber T} : Prop := {
  lt_le_trans : forall a b c : T, (a <? b)%py = true -> (b <=? c)%py = true -> (a <? c)%py = true;
  lt_trans : forall a b c : T, (a <? b)%py = true -> (b <? c)%py = true -> (a <? c)%py = true;
  lt_not_ge : forall a b : T, (a <? b)%py = true -> (b <=? a)%py = false;
  sub_nonneg : forall a x : T, (a <=? x)%py = true -> nonneg (x - a)%py = true;
  mul_nonneg : forall a b : T, nonneg a = true -> nonneg b = true -> nonneg (a * b)%py = true;
  add_nonneg : forall a b : T, nonneg a = true -> nonneg b = true -> nonneg (a + b)%py = true;
  round_nonneg : forall (a : T) (i : Z), nonneg a = true -> num_round a = inr i -> 0 <= i;
  tables_ascending : ascending (T := T) breakpoints_pm25 = true /\ ascending (T := T) breakpoints_co = true;
  tables_rising : forallb (rising (T := T)) (breakpoints_pm25 ++ breakpoints_co) = true
}.

(** ** Notions of the proofs on floats *)

(** The proofs about the calculation on floats read a float that is not
    below zero as an integer number of units of [2^s], for a scale [s] no
    more than the least exponent of the format, and each operation of the
    source as the exact operation on these integers followed by the rounding
    of the format. *)

(** [a / d] rounded to the nearest integer, a tie going to the even one. *)
Definition rdiv (a d : Z) : Z := round_half_even (a # Z.to_pos d).

(** Where the bits shifted out of [m0] by [k] steps stand against one half. *)
Definition frac_loc (m0 k : Z) : location :=
  if m0 mod 2 ^ k =? 0 then loc_Exact
  else loc_Inexact (2 * (m0 mod 2 ^ k) ?= 2 ^ k).

(** A shift record holds [m0] shifted right by [k] bits, with what the bits
    shifted out say of the part that is lost. *)
Definition represents (m0 k : Z) (rec : shr_record) : Prop :=
  shr_m rec = m0 / 2 ^ k /\ loc_of_shr_record rec = frac_loc m0 k.

(** The exponent the binary64 format gives a number of [z] digits. *)
Abbreviation fexp64 := (fexp prec emax).

(** A float that is a zero or a positive number, of exponent [s] at least. *)
Definition fin (s : Z) (r : spec_float) : Prop :=
  match r with
  | S754_zero _ => True
  | S754_finite false _ t => s <= t
  | _ => False
  end.

(** The value of such a float, in units of [2^s]. *)
Definition units (s : Z) (r : spec_float) : Z :=
  match r with
  | S754_finite _ m t => Zpos m * 2 ^ (t - s)
  | _ => 0
  end.

(** The value [a], in units of [2^s], rounded to the format. *)
Definition rho (s a : Z) : Z :=
  let t := fexp64 (Zdigits2 a + s) in
  rdiv a (2 ^ (t - s)) * 2 ^ (t - s).

(** A valid float that is a zero or a positive number. *)
Definition vfin (r : spec_float) : Prop :=
  match r with
  | S754_zero _ => True
  | S754_finite false m e => bounded prec emax m e = true
  | _ => False
  end.

(** The computation of [slope * (x - bp_low) + aqi_low] on floats, read on
    integers: every number in units of [2^s], the product in units of
    [2^(2s)] before it is brought back. *)
Definition interp_units (s uK uLO uILO u : Z) : Z :=
  rho s (rho (2 * s) (uK * rho s (u - uLO)) / 2 ^ (- s) + uILO).

(** The value of a primitive float in units of [2^-1074], the least positive
    float. *)
Abbreviation u64 x := (units (-1074) (Prim2SF x)).

(** What the proofs on floats need of a segment: its slope, its bounds and
    its lower index are floats of a moderate size, and the calculation at
    its two bounds gives the two indices it declares. *)
Record checked (bp : breakpoint) (K : float) : Prop := Checked {
  checked_slope :
    num_truediv (int (aqi_high bp) - int (aqi_low bp))%py
                (literal (bp_high bp) - literal (bp_low bp))%py = inr K;
  checked_K : vfin (Prim2SF K) /\ u64 K <= 2 ^ 5 * 2 ^ 1074;
  checked_low : vfin (Prim2SF (literal (bp_low bp)));
  checked_high : vfin (Prim2SF (literal (bp_high bp)))
                 /\ u64 (literal (bp_high bp)) <= 2 ^ 9 * 2 ^ 1074;
  checked_index : vfin (Prim2SF (int (aqi_low bp)))
                  /\ u64 (int (aqi_low bp)) <= 2 ^ 9 * 2 ^ 1074;
  checked_bounds : (literal (bp_low bp) <=? literal (bp_low bp))%py = true
                   /\ (literal (bp_low bp) <=? literal (bp_high bp))%py = true
                   /\ (literal (bp_high bp) <=? literal (bp_high bp))%py = true;
  checked_at_low :
    Binary64.round (K * (literal (bp_low bp) - literal (bp_low bp)) + int (aqi_low bp))%float
    = inr (aqi_low bp);
  checked_at_high :
    Binary64.round (K * (literal (bp_high bp) - literal (bp_low bp)) + int (aqi_low bp))%float
    = inr (aqi_high bp)
}.

(** * Properties *)

(** ** The scan *)

Section Scan.

Context {T : Type} `{PyNumber T}.

Lemma scan_first_match (breakpoints : list breakpoint) (x : T) (bp : breakpoint) :
  first_match breakpoints x = Some bp ->
  scan_breakpoints breakpoints x =
    (aqi <- interpolate x bp ;;
     index <- num_round aqi ;;
     ret (Some index, category bp, color bp)).
Proof.
  unfold first_match.
  induction breakpoints as [|b rest IH]; simpl; [discriminate|].
  destruct (in_segment x b) eqn:Hb.
  - intros [= ->]. reflexivity.
  - exact IH.
Qed.

Lemma scan_no_match (breakpoints : list breakpoint) (x : T) :
  first_match breakpoints x = None ->
  scan_breakpoints breakpoints x = inr out_of_range.
Proof.
  unfold first_match.
  induction breakpoints as [|b rest IH]; simpl; [reflexivity|].
  destruct (in_segment x b); [discriminate | exact IH].
Qed.

Lemma first_match_in (breakpoints : list breakpoint) (x : T) (bp : breakpoint) :
  first_match breakpoints x = Some bp -> In bp breakpoints /\ in_segment x bp = true.
Proof. apply find_some. Qed.

Lemma first_match_none (breakpoints : list breakpoint) (x : T) :
  (forall bp, In bp breakpoints -> in_segment x bp = false) <->
  first_match breakpoints x = None.
Proof.
  split.
  - induction breakpoints as [|b rest IH]; intros Hall; [reflexivity|].
    unfold first_match in *. simpl.
    rewrite (Hall b (or_introl eq_refl)).
    apply IH. intros bp Hin. apply Hall. right. exact Hin.
  - intros Hnone bp Hin. exact (find_none _ _ Hnone bp Hin).
Qed.

End Scan.

(** ** Rounding *)

Section Rounding.

Lemma round_half_even_bounds (q : Q) :
  (inject_Z (round_half_even q) - (1 # 2) <= q <= inject_Z (round_half_even q) + (1 # 2))%Q.
Proof.
  unfold round_half_even.
  pose proof (Qfloor_le q) as Hlo.
  pose proof (Qlt_floor q) as Hhi.
  rewrite inject_Z_plus in Hhi. change (inject_Z 1) with 1%Q in Hhi.
  destruct (Qcompare_spec (q - inject_Z (Qfloor q)) (1 # 2)) as [He|Hl|Hg].
  - destruct (Z.even (Qfloor q)); rewrite ?inject_Z_plus;
      change (inject_Z 1) with 1%Q; split; lra.
  - split; lra.
  - rewrite inject_Z_plus. change (inject_Z 1) with 1%Q. split; lra.
Qed.

#[global] Instance round_half_even_comp : Proper (Qeq ==> eq) round_half_even.
Proof.
  intros p q Hpq. unfold round_half_even.
  rewrite (Qfloor_comp _ _ Hpq).
  assert (Hc : ((p - inject_Z (Qfloor q)) ?= (1 # 2))%Q = ((q - inject_Z (Qfloor q)) ?= (1 # 2))%Q).
  { apply Qcompare_comp; [rewrite Hpq|]; reflexivity. }
  rewrite Hc. reflexivity.
Qed.

Lemma round_half_even_Z (n : Z) : round_half_even (inject_Z n) = n.
Proof.
  unfold round_half_even. rewrite Qfloor_Z.
  destruct (Qcompare_spec (inject_Z n - inject_Z n) (1 # 2)) as [He|Hl|Hg];
    [lra | reflexivity | lra].
Qed.

(** Rounding keeps the order: were the roundings of [p <= q] in the other
    order, both values would be the same tie, which has one rounding. *)
Lemma round_half_even_mono (p q : Q) :
  (p <= q)%Q -> round_half_even p <= round_half_even q.
Proof.
  intros Hpq.
  destruct (Z_le_gt_dec (round_half_even p) (round_half_even q)) as [|Hgt]; [assumption|].
  assert (Heq : (p == q)%Q).
  { assert (Hz : (inject_Z (round_half_even q) + 1 <= inject_Z (round_half_even p))%Q).
    { change 1%Q with (inject_Z 1). rewrite <- inject_Z_plus, <- Zle_Qle. lia. }
    pose proof (round_half_even_bounds p) as [Hp _].
    pose proof (round_half_even_bounds q) as [_ Hq].
    lra. }
  rewrite (round_half_even_comp _ _ Heq). lia.
Qed.

Lemma round_half_even_nonneg (q : Q) : (0 <= q)%Q -> 0 <= round_half_even q.
Proof.
  intros Hq. rewrite <- (round_half_even_Z 0). apply round_half_even_mono. exact Hq.
Qed.

End Rounding.

(** ** The laws in exact arithmetic *)

Lemma Qlt_bool_iff (a b : Q) : (a <? b)%py = true <-> (a < b)%Q.
Proof.
  cbn [num_lt PyNumber_Q]. rewrite negb_true_iff. split.
  - intros Hf. apply Qnot_le_lt. intros Hle. apply Qle_bool_iff in Hle. congruence.
  - intros Hlt. destruct (Qle_bool b a) eqn:Hle; [|reflexivity].
    apply Qle_bool_iff in Hle. lra.
Qed.

Lemma Qle_bool_false (a b : Q) : (a <=? b)%py = false <-> (b < a)%Q.
Proof. rewrite <- Qlt_bool_iff. cbn [num_lt num_le PyNumber_Q]. apply iff_sym, negb_true_iff. Qed.

Lemma nonneg_Q (x : Q) : nonneg x = true <-> (0 <= x)%Q.
Proof.
  unfold nonneg. rewrite negb_true_iff. change (int 0) with 0%Q.
  cbn [num_lt PyNumber_Q]. rewrite negb_false_iff. apply Qle_bool_iff.
Qed.

#[global] Instance PyNumberLaws_Q : PyNumberLaws Q.
Proof.
  split.
  - intros a b c Hab Hbc. apply Qlt_bool_iff in Hab. apply Qle_bool_iff in Hbc.
    apply Qlt_bool_iff. lra.
  - intros a b c Hab Hbc. apply Qlt_bool_iff in Hab, Hbc. apply Qlt_bool_iff. lra.
  - intros a b Hab. apply Qle_bool_false. apply Qlt_bool_iff. exact Hab.
  - intros a x Hax. apply Qle_bool_iff in Hax. apply nonneg_Q.
    cbn [num_sub PyNumber_Q]. lra.
  - intros a b Ha Hb. apply nonneg_Q in Ha, Hb. apply nonneg_Q.
    cbn [num_mul PyNumber_Q]. apply Qmult_le_0_compat; assumption.
  - intros a b Ha Hb. apply nonneg_Q in Ha, Hb. apply nonneg_Q.
    cbn [num_add PyNumber_Q]. lra.
  - intros a i Ha [= <-]. apply round_half_even_nonneg, nonneg_Q, Ha.
  - split; reflexivity.
  - reflexivity.
Qed.

(** ** The laws in binary64 arithmetic *)

(** The order of floats, read on their specification, compares sign, then
    exponent, then mantissa: it is transitive and strict whatever the
    floats. *)

Ltac split_compare :=
  repeat match goal with
  | H : context [Pos.compare_cont Eq ?a ?b] |- _ =>
      change (Pos.compare_cont Eq a b) with (Pos.compare a b) in H
  | |- context [Pos.compare_cont Eq ?a ?b] =>
      change (Pos.compare_cont Eq a b) with (Pos.compare a b)
  end;
  repeat match goal with
  | H : context [Z.compare ?a ?b] |- _ => destruct (Z.compare_spec a b); simpl in H
  | |- context [Z.compare ?a ?b] => destruct (Z.compare_spec a b); simpl
  | H : context [Pos.compare ?a ?b] |- _ => destruct (Pos.compare_spec a b); simpl in H
  | |- context [Pos.compare ?a ?b] => destruct (Pos.compare_spec a b); simpl
  end.

Ltac order_cases :=
  unfold SFltb, SFleb; simpl; intros;
  try discriminate; try reflexivity;
  split_compare; try discriminate; try reflexivity; try lia.

Lemma SFltb_leb_trans (a b c : spec_float) :
  SFltb a b = true -> SFleb b c = true -> SFltb a c = true.
Proof.
  destruct a as [[|]|[|]| |[|] ? ?], b as [[|]|[|]| |[|] ? ?], c as [[|]|[|]| |[|] ? ?];
    order_cases.
Qed.

Lemma SFltb_trans (a b c : spec_float) :
  SFltb a b = true -> SFltb b c = true -> SFltb a c = true.
Proof.
  destruct a as [[|]|[|]| |[|] ? ?], b as [[|]|[|]| |[|] ? ?], c as [[|]|[|]| |[|] ? ?];
    order_cases.
Qed.

Lemma SFltb_not_leb (a b : spec_float) : SFltb a b = true -> SFleb b a = false.
Proof.
  destruct a as [[|]|[|]| |[|] ? ?], b as [[|]|[|]| |[|] ? ?]; order_cases.
Qed.

(** The sign of a result.  Rounding keeps the sign it is given. *)

Lemma binary_round_aux_nonneg (m e : Z) (l : location) :
  Binary64.sf_nonneg (binary_round_aux prec emax false m e l) = true.
Proof.
  unfold binary_round_aux.
  destruct (shr_fexp prec emax m e l) as [mrs' e'].
  destruct (shr_fexp prec emax _ e' loc_Exact) as [mrs'' e''].
  destruct (shr_m mrs''); [reflexivity| |reflexivity].
  destruct (e'' <=? emax - prec); reflexivity.
Qed.

Lemma binary_normalize_nonneg (m e : Z) :
  0 <= m -> Binary64.sf_nonneg (binary_normalize prec emax m e false) = true.
Proof.
  destruct m as [|p|p]; intros Hm; [reflexivity| |lia].
  unfold binary_normalize, binary_round.
  destruct (shl_align p e _) as [mz ez]. apply binary_round_aux_nonneg.
Qed.

(** The size of the mantissa of a valid float. *)

Lemma digits2_pos_size (m : positive) : digits2_pos m = Pos.size m.
Proof. induction m as [m IH|m IH|]; simpl; rewrite ?IH; reflexivity. Qed.

Lemma digits2_pos_upper (m : positive) : Zpos m < 2 ^ Zpos (digits2_pos m).
Proof.
  rewrite digits2_pos_size. pose proof (Pos.size_gt m) as Hgt.
  apply Pos2Z.pos_lt_pos in Hgt. rewrite Pos2Z.inj_pow in Hgt. exact Hgt.
Qed.

Lemma digits2_pos_lower (m : positive) : 2 ^ (Zpos (digits2_pos m) - 1) <= Zpos m.
Proof.
  rewrite digits2_pos_size. pose proof (Pos.size_le m) as Hle.
  apply Pos2Z.pos_le_pos in Hle. rewrite Pos2Z.inj_pow in Hle.
  assert (Hpow : 2 ^ Zpos (Pos.size m) = 2 * 2 ^ (Zpos (Pos.size m) - 1)).
  { rewrite <- Z.pow_succ_r by lia. f_equal. lia. }
  lia.
Qed.

Lemma iter_xO (m d : positive) : Zpos (Pos.iter xO m d) = Zpos m * 2 ^ Zpos d.
Proof.
  induction d as [|d IH] using Pos.peano_ind.
  - simpl. lia.
  - rewrite Pos.iter_succ, Pos2Z.inj_xO, IH, Pos2Z.inj_succ, Z.pow_succ_r by lia. lia.
Qed.

Lemma shl_align_fst (m : positive) (e e' : Z) :
  e' <= e -> Zpos (fst (shl_align m e e')) = Zpos m * 2 ^ (e - e').
Proof.
  intros Hle. unfold shl_align.
  destruct (e' - e) as [|d|d] eqn:Hd; cbn [fst].
  - replace (e - e') with 0 by lia. rewrite Z.pow_0_r. lia.
  - lia.
  - rewrite iter_xO. do 2 f_equal. lia.
Qed.

(** A valid finite float has a mantissa below [2^53], and of [2^52] at least
    when its exponent is not the least one. *)
Lemma bounded_mantissa (m : positive) (e : Z) :
  bounded prec emax m e = true ->
  emin <= e /\ Zpos m < 2 ^ 53 /\ (emin < e -> 2 ^ 52 <= Zpos m).
Proof.
  unfold bounded, canonical_mantissa, fexp.
  intros Hb. apply andb_prop in Hb as [Hc _]. apply Z.eqb_eq in Hc.
  pose proof (digits2_pos_upper m) as Hup.
  pose proof (digits2_pos_lower m) as Hlo.
  unfold SpecFloat.emin, prec, emax in *.
  repeat split.
  - lia.
  - eapply Z.lt_le_trans; [exact Hup|]. apply Z.pow_le_mono_r; lia.
  - intros Hlt. replace (Zpos (digits2_pos m)) with 53 in Hlo by lia. exact Hlo.
Qed.

(** Of two valid floats of one sign, the one of the larger exponent is the
    larger, once both mantissas are aligned on the smaller exponent. *)
Lemma aligned_above (m1 : positive) (e1 : Z) (m2 : positive) (e2 : Z) :
  bounded prec emax m1 e1 = true -> bounded prec emax m2 e2 = true ->
  e1 < e2 ->
  Zpos m1 * 2 ^ (e1 - e1) < Zpos m2 * 2 ^ (e2 - e1).
Proof.
  intros H1 H2 Hlt.
  apply bounded_mantissa in H1 as (He1 & Hm1 & _).
  apply bounded_mantissa in H2 as (_ & _ & Hm2).
  specialize (Hm2 ltac:(lia)).
  rewrite Z.sub_diag, Z.pow_0_r.
  assert (Hp : 2 ^ 1 <= 2 ^ (e2 - e1)) by (apply Z.pow_le_mono_r; lia).
  change (2 ^ 1) with 2 in Hp.
  change (2 ^ 53) with (2 ^ 52 * 2) in Hm1.
  nia.
Qed.

Lemma SFsub_nonneg (a x : spec_float) :
  valid_binary a = true -> valid_binary x = true ->
  SFleb a x = true -> Binary64.sf_nonneg (SF64sub x a) = true.
Proof.
  destruct a as [sa|sa| |sa ma ea], x as [sx|sx| |sx mx ex];
    try (destruct sa); try (destruct sx); intros Ha Hx Hle;
    try discriminate Hle; try reflexivity.
  all: cbn [valid_binary] in Ha, Hx.
  all: unfold SF64sub, SFsub; apply binary_normalize_nonneg.
  all: unfold SFleb, SFcompare in Hle.
  all: destruct (Z.compare_spec ea ex) as [He|He|He]; try discriminate Hle.
  all: try (pose proof (aligned_above _ _ _ _ Ha Hx He) as Hal).
  all: try (pose proof (aligned_above _ _ _ _ Hx Ha He) as Hal).
  all: subst; rewrite ?Z.min_id.
  all: try rewrite (Z.min_l ex ea) by lia; try rewrite (Z.min_r ex ea) by lia.
  all: rewrite !shl_align_fst by lia.
  all: cbn [cond_Zopp]; try lia.
  all: change (Pos.compare_cont Eq ?p ?q) with (Pos.compare p q) in Hle.
  all: rewrite Z.sub_diag, Z.pow_0_r.
  all: destruct (Pos.compare_spec ma mx); try discriminate Hle; subst;
    simpl in Hle; try discriminate Hle; lia.
Qed.

Lemma SFmul_nonneg (a b : spec_float) :
  Binary64.sf_nonneg a = true -> Binary64.sf_nonneg b = true ->
  Binary64.sf_nonneg (SF64mul a b) = true.
Proof.
  destruct a as [sa|sa| |sa ma ea], b as [sb|sb| |sb mb eb];
    try (destruct sa); try (destruct sb); intros Ha Hb;
    try discriminate; try reflexivity.
  apply binary_round_aux_nonneg.
Qed.

Lemma SFadd_nonneg (a b : spec_float) :
  Binary64.sf_nonneg a = true -> Binary64.sf_nonneg b = true ->
  Binary64.sf_nonneg (SF64add a b) = true.
Proof.
  destruct a as [sa|sa| |sa ma ea], b as [sb|sb| |sb mb eb];
    try (destruct sa); try (destruct sb); intros Ha Hb;
    try discriminate; try reflexivity.
  unfold SF64add, SFadd. apply binary_normalize_nonneg. cbn [cond_Zopp]. lia.
Qed.

Lemma nonneg_float (x : float) : nonneg x = Binary64.sf_nonneg (Prim2SF x).
Proof.
  unfold nonneg. change (int 0 : float) with 0%float.
  cbn [num_lt PyNumber_float]. rewrite FloatAxioms.ltb_spec.
  change (Prim2SF 0) with (S754_zero false).
  destruct (Prim2SF x) as [s|s| |s m e]; try destruct s; reflexivity.
Qed.

Lemma value_nonneg (x : float) (q : Q) :
  Binary64.sf_nonneg (Prim2SF x) = true -> Binary64.value x = Some q -> (0 <= q)%Q.
Proof.
  unfold Binary64.value.
  destruct (Prim2SF x) as [s|s| |s m e]; intros Hx Hq; try discriminate Hq.
  - injection Hq as <-. apply Qle_refl.
  - destruct s; [discriminate Hx|].
    assert (Hm : 0 <= Zpos m) by lia.
    assert (Hv : Qle 0 match e with
                       | Z0 => inject_Z (Zpos m)
                       | Zpos p => inject_Z (Zpos m * 2 ^ Zpos p)
                       | Zneg p => Zpos m # 2 ^ p
                       end).
    { destruct e as [|p|p].
      - change 0%Q with (inject_Z 0). rewrite <- Zle_Qle. exact Hm.
      - change 0%Q with (inject_Z 0). rewrite <- Zle_Qle.
        apply Z.mul_nonneg_nonneg; [exact Hm | apply Z.pow_nonneg; lia].
      - unfold Qle. cbn [Qnum Qden]. lia. }
    cbn [cond_Zopp] in Hq. injection Hq as <-. exact Hv.
Qed.

Lemma round_float_nonneg (x : float) (i : Z) :
  Binary64.sf_nonneg (Prim2SF x) = true -> Binary64.round x = inr i -> 0 <= i.
Proof.
  intros Hx. unfold Binary64.round.
  destruct (Binary64.value x) as [q|] eqn:Hq.
  - intros [= <-]. apply round_half_even_nonneg. exact (value_nonneg x q Hx Hq).
  - destruct (is_nan x); discriminate.
Qed.

#[global] Instance PyNumberLaws_float : PyNumberLaws float.
Proof.
  split.
  - intros a b c. cbn [num_lt num_le PyNumber_float].
    rewrite !FloatAxioms.ltb_spec, FloatAxioms.leb_spec. apply SFltb_leb_trans.
  - intros a b c. cbn [num_lt num_le PyNumber_float].
    rewrite !FloatAxioms.ltb_spec. apply SFltb_trans.
  - intros a b. cbn [num_lt num_le PyNumber_float].
    rewrite FloatAxioms.ltb_spec, FloatAxioms.leb_spec. apply SFltb_not_leb.
  - intros a x. rewrite nonneg_float. cbn [num_le num_sub PyNumber_float].
    rewrite FloatAxioms.leb_spec, FloatAxioms.sub_spec. apply SFsub_nonneg; apply Prim2SF_valid.
  - intros a b. rewrite !nonneg_float. cbn [num_mul PyNumber_float].
    rewrite FloatAxioms.mul_spec. apply SFmul_nonneg.
  - intros a b. rewrite !nonneg_float. cbn [num_add PyNumber_float].
    rewrite FloatAxioms.add_spec. apply SFadd_nonneg.
  - intros a i. rewrite nonneg_float. apply round_float_nonneg.
  - split; vm_compute; reflexivity.
  - vm_compute; reflexivity.
Qed.

(** ** The calculators *)

Lemma interpolate_exact (c : Q) (bp : breakpoint) :
  In bp (breakpoints_pm25 ++ breakpoints_co) -> interpolate c bp = inr (linear c bp).
Proof.
  intros Hin. cbn [app breakpoints_pm25 breakpoints_co In] in Hin.
  repeat (destruct Hin as [<-|Hin]; [reflexivity|]). destruct Hin.
Qed.

(** C1, as amended.  When a segment of the table of a pollutant is the first one,
    in the order of the table, that holds the concentration, the calculator
    returns the category and the colour of that segment and, as index, the
    interpolated value rounded to the nearest integer, a tie going to the
    even neighbour (Python's [round]): whatever the arithmetic, the index is
    [round] of the value of [interpolate]; in exact arithmetic it is
    [round_half_even] of the formula [linear]; in binary64 arithmetic it is
    [round_half_even] of the exact value of the float the formula gives. *)
Theorem calculate_rounds_half_to_even :
  (forall (T : Type) (N : PyNumber T) (x : T) (bp : breakpoint),
      (first_match breakpoints_pm25 x = Some bp ->
       calculate_aqi_pm25 x =
         (aqi <- interpolate x bp ;; index <- num_round aqi ;;
          ret (Some index, category bp, color bp)))
      /\ (first_match breakpoints_co x = Some bp ->
          calculate_aqi_co x =
            (aqi <- interpolate x bp ;; index <- num_round aqi ;;
             ret (Some index, category bp, color bp))))
  /\ (forall (c : Q) (bp : breakpoint),
         (first_match breakpoints_pm25 c = Some bp ->
          calculate_aqi_pm25 c =
            inr (Some (round_half_even (linear c bp)), category bp, color bp))
         /\ (first_match breakpoints_co c = Some bp ->
             calculate_aqi_co c =
               inr (Some (round_half_even (linear c bp)), category bp, color bp)))
  /\ (forall (x : float) (bp : breakpoint) (aqi : float) (q : Q),
         interpolate x bp = inr aqi -> Binary64.value aqi = Some q ->
         (first_match breakpoints_pm25 x = Some bp ->
          calculate_aqi_pm25 x = inr (Some (round_half_even q), category bp, color bp))
         /\ (first_match breakpoints_co x = Some bp ->
             calculate_aqi_co x = inr (Some (round_half_even q), category bp, color bp))).
Proof.
  split; [|split].
  - intros T N x bp. split; apply scan_first_match.
  - intros c bp. split; intros Hm.
    + unfold calculate_aqi_pm25. rewrite (scan_first_match _ _ _ Hm).
      apply first_match_in in Hm as [Hin _].
      rewrite interpolate_exact by (apply in_or_app; left; exact Hin). reflexivity.
    + unfold calculate_aqi_co. rewrite (scan_first_match _ _ _ Hm).
      apply first_match_in in Hm as [Hin _].
      rewrite interpolate_exact by (apply in_or_app; right; exact Hin). reflexivity.
  - intros x bp aqi q Hi Hv. split; intros Hm.
    + unfold calculate_aqi_pm25. rewrite (scan_first_match _ _ _ Hm), Hi.
      cbn [bind ret Monad_py Monad_either num_round PyNumber_float].
      unfold Binary64.round. rewrite Hv. reflexivity.
    + unfold calculate_aqi_co. rewrite (scan_first_match _ _ _ Hm), Hi.
      cbn [bind ret Monad_py Monad_either num_round PyNumber_float].
      unfold Binary64.round. rewrite Hv. reflexivity.
Qed.

(** The theorem at the PM2.5 concentration 3, on floats: the formula gives
    12.5 and the index is 12. *)
Lemma calculate_rounds_half_to_even_witness :
  calculate_aqi_pm25 3%float = inr (Some 12, "Bueno", "#00E400").
Proof.
  exact (proj1 (proj2 (proj2 calculate_rounds_half_to_even) 3%float
                  (Breakpoint 0%Q 12%Q 0 50 "Bueno" "#00E400") 12.5%float
                  (7036874417766400 # 562949953421312) eq_refl eq_refl) eq_refl).
Defined.

(** C1, as stated, fails.  At the PM2.5 concentration 3 the first segment is
    the one that matches and the formula gives 12.5, in exact arithmetic and on
    floats alike; rounding with a tie going up gives 13, and both calculators
    return 12. *)
Lemma half_up_differs_at_3 :
  first_match breakpoints_pm25 3%Q = Some (Breakpoint 0%Q 12%Q 0 50 "Bueno" "#00E400")
  /\ (linear 3 (Breakpoint 0%Q 12%Q 0 50 "Bueno" "#00E400") == 25 # 2)%Q
  /\ round_half_up (linear 3 (Breakpoint 0%Q 12%Q 0 50 "Bueno" "#00E400")) = 13
  /\ calculate_aqi_pm25 3%Q = inr (Some 12, "Bueno", "#00E400")
  /\ first_match breakpoints_pm25 3%float = Some (Breakpoint 0%Q 12%Q 0 50 "Bueno" "#00E400")
  /\ interpolate 3%float (Breakpoint 0%Q 12%Q 0 50 "Bueno" "#00E400") = inr 12.5%float
  /\ option_map round_half_up (Binary64.value 12.5%float) = Some 13
  /\ calculate_aqi_pm25 3%float = inr (Some 12, "Bueno", "#00E400").
Proof. repeat split; vm_compute; reflexivity. Qed.

(** C6.  A concentration that no segment of the table holds gets the index
    [None], the category "Fuera de rango" (out of range) and the colour
    black, [#000000], and nothing is raised: the calculator returns.  This holds
    in every arithmetic and for both tables; on floats, -1 and 10000 are
    such concentrations, and so is a NaN. *)
Theorem no_match_is_out_of_range :
  (forall (T : Type) (N : PyNumber T) (x : T),
      (first_match breakpoints_pm25 x = None ->
       calculate_aqi_pm25 x =
         inr (None, category_label OutOfRange, category_color OutOfRange))
      /\ (first_match breakpoints_co x = None ->
          calculate_aqi_co x =
            inr (None, category_label OutOfRange, category_color OutOfRange)))
  /\ Forall (fun x : float =>
               first_match breakpoints_pm25 x = None
               /\ first_match breakpoints_co x = None
               /\ calculate_aqi_pm25 x = inr (None, "Fuera de rango", "#000000")
               /\ calculate_aqi_co x = inr (None, "Fuera de rango", "#000000"))
            [(-1)%float; 10000%float; Binary64.NaN].
Proof.
  split.
  - intros T N x. split; apply scan_no_match.
  - repeat constructor; vm_compute; reflexivity.
Qed.

(** The theorem at the PM2.5 concentration -1, on floats. *)
Lemma no_match_is_out_of_range_witness :
  calculate_aqi_pm25 (-1)%float = inr (None, "Fuera de rango", "#000000").
Proof.
  exact (proj1 (proj1 no_match_is_out_of_range float _ (-1)%float) eq_refl).
Defined.

(** C4.  At each bound of each segment of a table, the calculator of the
    pollutant returns the index the table declares for that bound, with the
    category and the colour of the segment: on floats, where the bound is the
    float the literal of the source denotes, and in exact arithmetic; in
    particular the PM2.5 concentration 12.0 gets 50 and 12.1 gets 51. *)
Theorem boundary_index_exact :
  Forall (fun bp =>
            calculate_aqi_pm25 (literal (bp_low bp) : float) =
              inr (Some (aqi_low bp), category bp, color bp)
            /\ calculate_aqi_pm25 (literal (bp_high bp) : float) =
                 inr (Some (aqi_high bp), category bp, color bp)
            /\ calculate_aqi_pm25 (bp_low bp) =
                 inr (Some (aqi_low bp), category bp, color bp)
            /\ calculate_aqi_pm25 (bp_high bp) =
                 inr (Some (aqi_high bp), category bp, color bp))
         breakpoints_pm25
  /\ Forall (fun bp =>
               calculate_aqi_co (literal (bp_low bp) : float) =
                 inr (Some (aqi_low bp), category bp, color bp)
               /\ calculate_aqi_co (literal (bp_high bp) : float) =
                    inr (Some (aqi_high bp), category bp, color bp)
               /\ calculate_aqi_co (bp_low bp) =
                    inr (Some (aqi_low bp), category bp, color bp)
               /\ calculate_aqi_co (bp_high bp) =
                    inr (Some (aqi_high bp), category bp, color bp))
            breakpoints_co
  /\ calculate_aqi_pm25 12.0%float = inr (Some 50, "Bueno", "#00E400")
  /\ calculate_aqi_pm25 12.1%float = inr (Some 51, "Moderado", "#FFFF00").
Proof.
  split; [|split; [|split]].
  - repeat constructor; vm_compute; reflexivity.
  - repeat constructor; vm_compute; reflexivity.
  - vm_compute; reflexivity.
  - vm_compute; reflexivity.
Qed.

(** ** The combination *)

Section Combination.

Context {T : Type} `{PyNumber T}.

(** What [derive] returns, when it returns. *)
Lemma derive_inr (r : reading T) (d : Df.columns) :
  derive r = inr d ->
  calculate_aqi_pm25 (pm25 r) = inr (Df.aqi_pm25 d, Df.category_pm25 d, Df.color_pm25 d)
  /\ calculate_aqi_co (co r) = inr (Df.aqi_co d, Df.category_co d, Df.color_co d)
  /\ Df.aqi d = row_max [Df.aqi_pm25 d; Df.aqi_co d]
  /\ Df.category d = np_select (conditions (Df.aqi d)) categories "Fuera de rango"
  /\ Df.color d = np_select (conditions (Df.aqi d)) colors "#000000".
Proof.
  unfold derive.
  destruct (calculate_aqi_pm25 (pm25 r)) as [e1|[[a1 c1] k1]]; [discriminate|].
  destruct (calculate_aqi_co (co r)) as [e2|[[a2 c2] k2]]; [discriminate|].
  cbn [bind ret Monad_py Monad_either]. intros [= <-]. cbn. repeat split; reflexivity.
Qed.

End Combination.

(** The largest of the defined cells of a row, and nothing when none is. *)
Lemma row_max_spec (cells : list (option Z)) :
  match row_max cells with
  | Some m => In (Some m) cells /\ forall i, In (Some i) cells -> i <= m
  | None => forall c, In c cells -> c = None
  end.
Proof.
  induction cells as [|[i|] rest IH]; cbn [row_max].
  - intros c [].
  - destruct (row_max rest) as [m|].
    + destruct IH as [Hin Hmax]. split.
      * destruct (Z.max_spec i m) as [[_ ->]|[_ ->]]; [right; exact Hin | left; reflexivity].
      * intros j [[= <-]|Hj]; [lia|]. specialize (Hmax j Hj). lia.
    + split; [left; reflexivity|].
      intros j [[= <-]|Hj]; [lia|]. specialize (IH _ Hj). discriminate.
  - destruct (row_max rest) as [m|].
    + destruct IH as [Hin Hmax]. split; [right; exact Hin|].
      intros j [Hj|Hj]; [discriminate | exact (Hmax j Hj)].
    + intros c [<-|Hc]; [reflexivity | exact (IH c Hc)].
Qed.

(** C2.  In every arithmetic and for every reading the derivation returns
    for: when some per-pollutant index is defined, the overall index is
    defined, is one of the defined per-pollutant indices and is no less than
    any of them; when no per-pollutant index is defined, the overall index is
    not defined either. *)
Theorem overall_index_is_max_of_defined :
  forall (T : Type) (N : PyNumber T) (r : reading T) (d : Df.columns),
    derive r = inr d ->
    ((exists i, In (Some i) [Df.aqi_pm25 d; Df.aqi_co d]) ->
     exists m, Df.aqi d = Some m
               /\ In (Some m) [Df.aqi_pm25 d; Df.aqi_co d]
               /\ forall i, In (Some i) [Df.aqi_pm25 d; Df.aqi_co d] -> i <= m)
    /\ ((forall c, In c [Df.aqi_pm25 d; Df.aqi_co d] -> c = None) -> Df.aqi d = None).
Proof.
  intros T N r d Hd. apply derive_inr in Hd as (_ & _ & Haqi & _).
  pose proof (row_max_spec [Df.aqi_pm25 d; Df.aqi_co d]) as Hspec.
  rewrite <- Haqi in Hspec. split.
  - intros [i Hi]. destruct (Df.aqi d) as [m|].
    + exists m. destruct Hspec as [Hin Hmax]. repeat split; assumption.
    + specialize (Hspec _ Hi). discriminate.
  - intros Hnone. destruct (Df.aqi d) as [m|]; [|reflexivity].
    destruct Hspec as [Hin _]. exact (Hnone _ Hin).
Qed.

(** The theorem at the reading of PM2.5 200 and CO 1, on floats: both indices
    are defined, 250 and 11, and the overall index is 250. *)
Lemma overall_index_is_max_of_defined_witness :
  exists m, Some 250 = Some m
            /\ In (Some m) [Some 250; Some 11]
            /\ forall i, In (Some i) [Some 250; Some 11] -> i <= m.
Proof.
  refine (proj1 (overall_index_is_max_of_defined float _
                   (Reading "2024-01-01 00:00:00" 200%float 0%float 1%float 20%float 50%float)
                   (Df.Columns (Some 250) "Muy Insalubre" "#99004C"
                               (Some 11) "Bueno" "#00E400"
                               (Some 250) "Muy Insalubre" "#99004C")
                   eq_refl) _).
  exists 250. left. reflexivity.
Defined.

(** C10.  In every arithmetic, two readings with the same PM2.5 and the same
    CO concentration have the same derived columns (per-pollutant indices,
    categories and colours, overall index, category and colour) or raise the
    same exception, whatever their time stamps, PM10 concentrations,
    temperatures and humidities. *)
Theorem derive_reads_pm25_and_co_only :
  forall (T : Type) (N : PyNumber T) (r1 r2 : reading T),
    pm25 r1 = pm25 r2 -> co r1 = co r2 -> derive r1 = derive r2.
Proof.
  intros T N r1 r2 Hpm Hco. unfold derive. rewrite Hpm, Hco. reflexivity.
Qed.

(** The theorem at two float readings of PM2.5 200 and CO 1 that differ in
    every other field. *)
Lemma derive_reads_pm25_and_co_only_witness :
  derive (Reading "2024-01-01 00:00:00" 200%float 0%float 1%float 20%float 50%float) =
  derive (Reading "2024-06-30 12:00:00" 200%float 999%float 1%float (-5)%float 100%float).
Proof.
  exact (derive_reads_pm25_and_co_only float _
           (Reading "2024-01-01 00:00:00" 200%float 0%float 1%float 20%float 50%float)
           (Reading "2024-06-30 12:00:00" 200%float 999%float 1%float (-5)%float 100%float)
           eq_refl eq_refl).
Defined.

(** C8.  For a reading of PM2.5 200 and CO 1, on floats and whatever its other
    fields: 200 is in the segment from 150.5 to 250.4 of the PM2.5 table, the
    PM2.5 index is 250, which is between 201 and 300, the CO index is 11, the
    overall index is the PM2.5 index, and the overall category is
    "Muy Insalubre", the label of VeryUnhealthy. *)
Theorem pm25_200_co_1_is_very_unhealthy :
  forall (ts : string) (pm10 temp humidity : float),
    first_match breakpoints_pm25 200%float =
      Some (Breakpoint 150.5%Q 250.4%Q 201 300 "Muy Insalubre" "#99004C")
    /\ exists d : Df.columns,
        derive (Reading ts 200%float pm10 1%float temp humidity) = inr d
        /\ Df.aqi_pm25 d = Some 250
        /\ 201 <= 250 <= 300
        /\ Df.aqi_co d = Some 11
        /\ Df.aqi d = Df.aqi_pm25 d
        /\ Df.category d = category_label (Band VeryUnhealthy)
        /\ Df.category d = "Muy Insalubre".
Proof.
  intros ts pm10 temp humidity. split; [vm_compute; reflexivity|].
  eexists. split; [vm_compute; reflexivity|].
  cbn. repeat split; lia.
Qed.

(** ** The gaps of a table *)

Section Gaps.

Context {T : Type} `{PyNumberLaws T}.

(** Below the first segment of an ascending table, no segment matches. *)
Lemma below_first_no_match (bp : breakpoint) (rest : list breakpoint) (x : T) :
  ascending (T := T) (bp :: rest) = true ->
  (x <? literal (bp_low bp))%py = true ->
  forall b, In b (bp :: rest) -> in_segment x b = false.
Proof.
  revert bp. induction rest as [|next rest IH]; intros bp Hasc Hx b Hb.
  - destruct Hb as [<-|[]]. unfold in_segment.
    rewrite (lt_not_ge _ _ Hx). reflexivity.
  - cbn [ascending] in Hasc.
    apply andb_prop in Hasc as [Hasc Hrest]. apply andb_prop in Hasc as [Hle Hnext].
    destruct Hb as [<-|Hb].
    + unfold in_segment. rewrite (lt_not_ge _ _ Hx). reflexivity.
    + apply (IH next Hrest); [|exact Hb].
      eapply lt_trans; [|exact Hnext].
      eapply lt_le_trans; [exact Hx | exact Hle].
Qed.

(** Above a gap of an ascending table is above the upper bound of its first
    segment. *)
Lemma above_gap_above_first (bp : breakpoint) (rest : list breakpoint) (gap : Q * Q) (x : T) :
  ascending (T := T) (bp :: rest) = true ->
  In gap (gaps (bp :: rest)) ->
  (literal (fst gap) <? x)%py = true ->
  (literal (bp_high bp) <? x)%py = true.
Proof.
  revert bp. induction rest as [|next rest IH]; intros bp Hasc Hgap Hx.
  - destruct Hgap.
  - cbn [ascending] in Hasc.
    apply andb_prop in Hasc as [Hasc Hrest]. apply andb_prop in Hasc as [Hle Hnext].
    destruct Hgap as [<-|Hgap]; [exact Hx|].
    specialize (IH next Hrest Hgap Hx).
    eapply lt_trans; [|exact IH].
    eapply lt_le_trans; [exact Hnext|].
    cbn [ascending] in Hrest.
    apply andb_prop in Hrest as [Hrest _]. apply andb_prop in Hrest as [Hle' _].
    exact Hle'.
Qed.

(** Inside a gap of an ascending table, no segment matches. *)
Lemma in_gap_no_match (breakpoints : list breakpoint) (gap : Q * Q) (x : T) :
  ascending (T := T) breakpoints = true ->
  In gap (gaps breakpoints) ->
  in_gap x gap = true ->
  first_match breakpoints x = None.
Proof.
  intros Hasc Hgap Hx. apply first_match_none.
  unfold in_gap in Hx. apply andb_prop in Hx as [Hlo Hhi].
  induction breakpoints as [|bp rest IH]; [intros b []|].
  destruct rest as [|next rest]; [destruct Hgap|].
  assert (Hfirst : in_segment x bp = false).
  { pose proof (above_gap_above_first _ _ _ _ Hasc Hgap Hlo) as Habove.
    unfold in_segment. rewrite (lt_not_ge _ _ Habove). apply andb_false_r. }
  intros b [<-|Hb]; [exact Hfirst|].
  cbn [ascending] in Hasc.
  apply andb_prop in Hasc as [_ Hrest].
  destruct Hgap as [<-|Hgap].
  - exact (below_first_no_match _ _ _ Hrest Hhi b Hb).
  - exact (IH Hrest Hgap b Hb).
Qed.

End Gaps.

(** C9.  In binary64 and in exact arithmetic alike (in every arithmetic with
    the laws of [PyNumberLaws]), a PM2.5 concentration strictly between the
    upper bound of a segment and the lower bound of the next one matches no
    segment, and the calculator returns the index [None], the category
    "Fuera de rango" and the colour black, [#000000]; the gaps of the PM2.5
    table are those from 12 to 12.1, from 35.4 to 35.5, from 55.4 to 55.5,
    from 150.4 to 150.5 and from 250.4 to 250.5, all of them above zero and
    below the upper bound 500.4 of the last segment. *)
Theorem pm25_gap_is_out_of_range :
  gaps breakpoints_pm25 =
    [(12, 12.1); (35.4, 35.5); (55.4, 55.5); (150.4, 150.5); (250.4, 250.5)]%Q
  /\ forall (T : Type) (N : PyNumber T) (L : PyNumberLaws T) (x : T) (gap : Q * Q),
      In gap (gaps breakpoints_pm25) ->
      in_gap x gap = true ->
      first_match breakpoints_pm25 x = None
      /\ calculate_aqi_pm25 x = inr (None, "Fuera de rango", "#000000").
Proof.
  split; [reflexivity|].
  intros T N L x gap Hgap Hx.
  assert (Hnone : first_match breakpoints_pm25 x = None).
  { eapply in_gap_no_match; [exact (proj1 tables_ascending) | exact Hgap | exact Hx]. }
  split; [exact Hnone | exact (scan_no_match _ _ Hnone)].
Qed.

(** The theorem at the PM2.5 concentration 12.05, on floats, which is between
    12 and 12.1. *)
Lemma pm25_gap_is_out_of_range_witness :
  first_match breakpoints_pm25 12.05%float = None
  /\ calculate_aqi_pm25 12.05%float = inr (None, "Fuera de rango", "#000000").
Proof.
  exact (proj2 pm25_gap_is_out_of_range float _ _ 12.05%float (12, 12.1)%Q
           (or_introl eq_refl) eq_refl).
Defined.

(** ** The overall category *)

Section Sign.

Context {T : Type} `{PyNumberLaws T}.

(** An index a calculator returns is not below zero. *)
Lemma scan_index_nonneg (breakpoints : list breakpoint) (x : T)
      (i : Z) (cat col : string) :
  forallb (rising (T := T)) breakpoints = true ->
  scan_breakpoints breakpoints x = inr (Some i, cat, col) ->
  0 <= i.
Proof.
  induction breakpoints as [|bp rest IH]; cbn [forallb scan_breakpoints]; intros Hr Hs.
  - discriminate Hs.
  - apply andb_prop in Hr as [Hbp Hrest].
    destruct (in_segment x bp) eqn:Hseg; [|exact (IH Hrest Hs)].
    unfold in_segment in Hseg. apply andb_prop in Hseg as [Hlo _].
    unfold rising in Hbp. unfold interpolate in Hs.
    destruct (num_truediv _ _) as [e|slope]; [discriminate Hbp|].
    apply andb_prop in Hbp as [Hslope Hlow].
    cbn [bind ret Monad_py Monad_either] in Hs.
    destruct (num_round _) as [e|index] eqn:Hround; [discriminate Hs|].
    injection Hs as <- _ _.
    refine (round_nonneg _ _ _ Hround).
    apply add_nonneg; [|exact Hlow].
    apply mul_nonneg; [exact Hslope|].
    apply sub_nonneg. exact Hlo.
Qed.

Lemma derive_index_nonneg (r : reading T) (d : Df.columns) (i : Z) :
  derive r = inr d -> Df.aqi d = Some i -> 0 <= i.
Proof.
  intros Hd Hi. apply derive_inr in Hd as (Hpm & Hco & Haqi & _).
  pose proof tables_rising as Hrise. rewrite forallb_app in Hrise.
  apply andb_prop in Hrise as [Hrpm Hrco].
  pose proof (row_max_spec [Df.aqi_pm25 d; Df.aqi_co d]) as Hspec.
  rewrite <- Haqi, Hi in Hspec. destruct Hspec as [[Hin|[Hin|[]]] _].
  - rewrite Hin in Hpm. exact (scan_index_nonneg _ _ _ _ _ Hrpm Hpm).
  - rewrite Hin in Hco. exact (scan_index_nonneg _ _ _ _ _ Hrco Hco).
Qed.

End Sign.

(** On an index that is not below zero, the two [np.select] of the script
    choose the label and the colour of the band of the index. *)
Lemma np_select_general_band (aqi : option Z) :
  (forall i, aqi = Some i -> 0 <= i) ->
  np_select (conditions aqi) categories "Fuera de rango" = category_label (reclassify aqi)
  /\ np_select (conditions aqi) colors "#000000" = category_color (reclassify aqi).
Proof.
  destruct aqi as [i|]; [|split; reflexivity].
  intros Hi. specialize (Hi i eq_refl).
  unfold conditions, aqi_le, reclassify, general_band, categories, colors.
  cbn [np_select].
  repeat match goal with
         | |- context [?a <=? ?b] => destruct (Z.leb_spec a b)
         end; cbn [andb category_label category_color]; try (split; reflexivity); lia.
Qed.

(** C3.  In binary64 and in exact arithmetic alike (in every arithmetic with
    the laws of [PyNumberLaws]) and for every reading the derivation returns
    for, the overall category is the label of the band that the general
    thresholds give the overall index (0-50 Good, 51-100 Moderate, 101-150
    UnhealthyForSensitive, 151-200 Unhealthy, 201-300 VeryUnhealthy, 301-500
    Hazardous), and "Fuera de rango", the label of OutOfRange, when the
    overall index is undefined; the overall colour goes with it.  The
    category is thus read off the overall index alone, not off the
    per-pollutant categories. *)
Theorem overall_category_reclassifies_index :
  forall (T : Type) (N : PyNumber T) (L : PyNumberLaws T) (r : reading T) (d : Df.columns),
    derive r = inr d ->
    Df.category d = category_label (reclassify (Df.aqi d))
    /\ Df.color d = category_color (reclassify (Df.aqi d))
    /\ (Df.aqi d = None -> Df.category d = "Fuera de rango").
Proof.
  intros T N L r d Hd.
  pose proof (np_select_general_band (Df.aqi d) (fun i => derive_index_nonneg r d i Hd))
    as [Hcat Hcol].
  apply derive_inr in Hd as (_ & _ & _ & Hc & Hk).
  rewrite Hc, Hk. repeat split; try assumption.
  intros Hnone. rewrite Hcat, Hnone. reflexivity.
Qed.

(** The theorem at the reading of PM2.5 200 and CO 1, on floats: the overall
    index 250 is in the band of VeryUnhealthy. *)
Lemma overall_category_reclassifies_index_witness :
  "Muy Insalubre" = category_label (reclassify (Some 250)).
Proof.
  exact (proj1 (overall_category_reclassifies_index float _ _
                  (Reading "2024-01-01 00:00:00" 200%float 0%float 1%float 20%float 50%float)
                  (Df.Columns (Some 250) "Muy Insalubre" "#99004C"
                              (Some 11) "Bueno" "#00E400"
                              (Some 250) "Muy Insalubre" "#99004C")
                  eq_refl)).
Defined.

(** ** A missing concentration *)

(** C7, as amended.  For a reading whose PM2.5 cell is missing (a NaN) and
    whose CO concentration is 5, on floats and whatever its other fields, the
    derivation returns: the PM2.5 result is the out-of-range one (index [None],
    "Fuera de rango", black), the CO result is the index 56 in "Moderado",
    so that CO's is the only defined per-pollutant index, and the overall
    index is the CO index. *)
Theorem missing_pm25_is_out_of_range :
  forall (ts : string) (pm10 temp humidity : float),
  exists d : Df.columns,
    derive (Reading ts Binary64.NaN pm10 5%float temp humidity) = inr d
    /\ per_pollutant d = [(PM25, out_of_range); (CO, (Some 56, "Moderado", "#FFFF00"))]
    /\ Df.aqi d = Df.aqi_co d
    /\ Df.aqi d = Some 56.
Proof.
  intros ts pm10 temp humidity. eexists. split; [vm_compute; reflexivity|].
  cbn. repeat split.
Qed.

(** C7, as stated, fails.  For the reading whose PM2.5 cell is missing and whose
    CO concentration is 5, the per-pollutant results are not CO's alone: the
    row has a PM2.5 result too, the out-of-range one. *)
Lemma missing_pm25_still_has_a_result :
  exists d : Df.columns,
    derive (Reading "2024-01-01 00:00:00" Binary64.NaN 0%float 5%float 20%float 50%float)
      = inr d
    /\ In (PM25, out_of_range) (per_pollutant d)
    /\ per_pollutant d <> [(CO, (Df.aqi_co d, Df.category_co d, Df.color_co d))].
Proof.
  eexists. split; [vm_compute; reflexivity|].
  split; [left; reflexivity | discriminate].
Qed.

(** ** Monotonicity in exact arithmetic *)

Lemma in_segment_Q (c : Q) (bp : breakpoint) :
  in_segment c bp = true <-> (bp_low bp <= c <= bp_high bp)%Q.
Proof.
  unfold in_segment. cbn [num_le literal PyNumber_Q].
  rewrite andb_true_iff, !Qle_bool_iff. reflexivity.
Qed.

Section Linear.

Variable bp : breakpoint.
Hypothesis Hbp : proper bp.

Lemma slope_nonneg :
  (0 <= (inject_Z (aqi_high bp) - inject_Z (aqi_low bp)) / (bp_high bp - bp_low bp))%Q.
Proof.
  destruct Hbp as [Hc Hi].
  apply Qle_shift_div_l; [lra|].
  rewrite Zle_Qle in Hi. lra.
Qed.

Lemma linear_mono (c1 c2 : Q) : (c1 <= c2)%Q -> (linear c1 bp <= linear c2 bp)%Q.
Proof.
  intros Hle. unfold linear. pose proof slope_nonneg as Hs.
  set (k := ((inject_Z (aqi_high bp) - inject_Z (aqi_low bp)) / (bp_high bp - bp_low bp))%Q) in *.
  nra.
Qed.

Lemma linear_low : (linear (bp_low bp) bp == inject_Z (aqi_low bp))%Q.
Proof. unfold linear. ring. Qed.

Lemma linear_high : (linear (bp_high bp) bp == inject_Z (aqi_high bp))%Q.
Proof.
  destruct Hbp as [Hc _]. unfold linear. field. lra.
Qed.

Lemma linear_bounds (c : Q) :
  (bp_low bp <= c <= bp_high bp)%Q ->
  (inject_Z (aqi_low bp) <= linear c bp <= inject_Z (aqi_high bp))%Q.
Proof.
  intros [Hlo Hhi]. rewrite <- linear_low, <- linear_high.
  split; apply linear_mono; assumption.
Qed.

End Linear.

Lemma pm25_proper (bp : breakpoint) : In bp breakpoints_pm25 -> proper bp.
Proof.
  intros Hin. cbn [breakpoints_pm25 In] in Hin.
  repeat (destruct Hin as [<-|Hin]; [split; [reflexivity | discriminate]|]).
  destruct Hin.
Qed.

Lemma linear_mono_pm25 (c1 c2 : Q) (bp1 bp2 : breakpoint) :
  In bp1 breakpoints_pm25 -> In bp2 breakpoints_pm25 ->
  (bp_low bp1 <= c1 <= bp_high bp1)%Q -> (bp_low bp2 <= c2 <= bp_high bp2)%Q ->
  (c1 <= c2)%Q -> (linear c1 bp1 <= linear c2 bp2)%Q.
Proof.
  intros H1 H2 Hc1 Hc2 Hle.
  pose proof (linear_bounds bp1 (pm25_proper bp1 H1) c1 Hc1) as Hb1.
  pose proof (linear_bounds bp2 (pm25_proper bp2 H2) c2 Hc2) as Hb2.
  pose proof (fun H => linear_mono bp1 (pm25_proper bp1 H) c1 c2 Hle) as Hsame.
  cbn [breakpoints_pm25 In] in H1, H2.
  repeat (destruct H1 as [<-|H1]); try contradiction;
  repeat (destruct H2 as [<-|H2]); try contradiction;
  cbn [bp_low bp_high aqi_low aqi_high] in Hc1, Hc2, Hb1, Hb2;
  unfold inject_Z in Hb1, Hb2;
  first [ apply Hsame; cbn [breakpoints_pm25 In]; tauto | lra ].
Qed.

Lemma covered_first_match {T : Type} `{PyNumber T} (bps : list breakpoint) (x : T) :
  covered bps x = true -> exists bp, first_match bps x = Some bp.
Proof.
  unfold covered, first_match.
  induction bps as [|b rest IH]; cbn [existsb find]; [discriminate|].
  destruct (in_segment x b); [intros _; exists b; reflexivity | exact IH].
Qed.

(** In exact arithmetic, for two concentrations [c1 <= c2] that the PM2.5
    table covers: both are within 0 and 500.4, the calculator returns
    a defined index for each, and the index of [c1] is no more than the index
    of [c2]. *)
Lemma pm25_index_monotone_exact :
  forall c1 c2 : Q,
    covered breakpoints_pm25 c1 = true ->
    covered breakpoints_pm25 c2 = true ->
    (c1 <= c2)%Q ->
    (0 <= c1 /\ c2 <= 500.4)%Q
    /\ exists (i1 i2 : Z) (cat1 col1 cat2 col2 : string),
        calculate_aqi_pm25 c1 = inr (Some i1, cat1, col1)
        /\ calculate_aqi_pm25 c2 = inr (Some i2, cat2, col2)
        /\ i1 <= i2.
Proof.
  intros c1 c2 H1 H2 Hle.
  apply covered_first_match in H1 as [bp1 Hm1].
  apply covered_first_match in H2 as [bp2 Hm2].
  pose proof (first_match_in _ _ _ Hm1) as [Hin1 Hs1].
  pose proof (first_match_in _ _ _ Hm2) as [Hin2 Hs2].
  apply in_segment_Q in Hs1, Hs2.
  split.
  - clear Hm1 Hm2. cbn [breakpoints_pm25 In] in Hin1, Hin2.
    repeat (destruct Hin1 as [<-|Hin1]); try contradiction;
    repeat (destruct Hin2 as [<-|Hin2]); try contradiction;
    cbn [bp_low bp_high] in Hs1, Hs2; lra.
  - exists (round_half_even (linear c1 bp1)), (round_half_even (linear c2 bp2)),
      (category bp1), (color bp1), (category bp2), (color bp2).
    unfold calculate_aqi_pm25.
    rewrite (scan_first_match _ _ _ Hm1), (scan_first_match _ _ _ Hm2).
    rewrite !interpolate_exact by (apply in_or_app; left; assumption).
    repeat split.
    apply round_half_even_mono. apply linear_mono_pm25; assumption.
Qed.

(** ** More on the calculators *)

(** X1.  In binary64 and in exact arithmetic alike (in every arithmetic with
    the laws of [PyNumberLaws]), an index that a calculator returns is never
    below zero. *)
Theorem calculated_index_nonneg :
  forall (T : Type) (N : PyNumber T) (L : PyNumberLaws T) (x : T)
         (i : Z) (cat col : string),
    (calculate_aqi_pm25 x = inr (Some i, cat, col) -> 0 <= i)
    /\ (calculate_aqi_co x = inr (Some i, cat, col) -> 0 <= i).
Proof.
  intros T N L x i cat col.
  pose proof tables_rising as Hrise. rewrite forallb_app in Hrise.
  apply andb_prop in Hrise as [Hpm Hco].
  split; intros Hr.
  - exact (scan_index_nonneg _ _ _ _ _ Hpm Hr).
  - exact (scan_index_nonneg _ _ _ _ _ Hco Hr).
Qed.

(** The theorem at the PM2.5 concentration 200, on floats. *)
Lemma calculated_index_nonneg_witness : 0 <= 250.
Proof.
  exact (proj1 (calculated_index_nonneg float _ _ 200%float 250 "Muy Insalubre" "#99004C")
           eq_refl).
Defined.

Lemma co_proper (bp : breakpoint) : In bp breakpoints_co -> proper bp.
Proof.
  intros Hin. cbn [breakpoints_co In] in Hin.
  repeat (destruct Hin as [<-|Hin]; [split; [reflexivity | discriminate]|]).
  destruct Hin.
Qed.

(** In exact arithmetic, the result of a scan of one of the two tables. *)
Lemma scan_exact (breakpoints : list breakpoint) (c : Q) (res : aqi_result) :
  (forall bp, In bp breakpoints -> In bp (breakpoints_pm25 ++ breakpoints_co)) ->
  scan_breakpoints breakpoints c = inr res ->
  (first_match breakpoints c = None /\ res = out_of_range)
  \/ exists bp, first_match breakpoints c = Some bp
                /\ res = (Some (round_half_even (linear c bp)), category bp, color bp).
Proof.
  intros Hsub Hres.
  destruct (first_match breakpoints c) as [bp|] eqn:Hm.
  - right. exists bp. split; [reflexivity|].
    rewrite (scan_first_match _ _ _ Hm) in Hres.
    apply first_match_in in Hm as [Hin _].
    rewrite (interpolate_exact _ _ (Hsub _ Hin)) in Hres.
    injection Hres as <-. reflexivity.
  - left. rewrite (scan_no_match _ _ Hm) in Hres. injection Hres as <-. split; reflexivity.
Qed.

Lemma index_in_segment (c : Q) (bp : breakpoint) :
  proper bp -> in_segment c bp = true ->
  aqi_low bp <= round_half_even (linear c bp) <= aqi_high bp.
Proof.
  intros Hp Hs. apply in_segment_Q in Hs.
  pose proof (linear_bounds bp Hp c Hs) as [Hlo Hhi].
  rewrite <- (round_half_even_Z (aqi_low bp)), <- (round_half_even_Z (aqi_high bp)).
  split; apply round_half_even_mono; assumption.
Qed.

(** In exact arithmetic, when a segment is the first one that holds the
    concentration, the calculator returns (it raises nothing) an index
    between the two indices the segment declares, hence between 0 and 500,
    with the category and the colour of the segment. *)
Lemma exact_index_within_segment :
  forall (c : Q) (bp : breakpoint),
    (first_match breakpoints_pm25 c = Some bp ->
     exists i, calculate_aqi_pm25 c = inr (Some i, category bp, color bp)
               /\ aqi_low bp <= i <= aqi_high bp /\ 0 <= i <= 500)
    /\ (first_match breakpoints_co c = Some bp ->
        exists i, calculate_aqi_co c = inr (Some i, category bp, color bp)
                  /\ aqi_low bp <= i <= aqi_high bp /\ 0 <= i <= 500).
Proof.
  intros c bp. split; intros Hm.
  - pose proof (first_match_in _ _ _ Hm) as [Hin Hs].
    exists (round_half_even (linear c bp)).
    pose proof (index_in_segment c bp (pm25_proper bp Hin) Hs) as Hb.
    split; [|split; [exact Hb|]].
    + unfold calculate_aqi_pm25. rewrite (scan_first_match _ _ _ Hm).
      rewrite interpolate_exact by (apply in_or_app; left; exact Hin). reflexivity.
    + cbn [breakpoints_pm25 In] in Hin.
      repeat (destruct Hin as [<-|Hin]; [cbn [aqi_low aqi_high] in Hb; lia|]).
      destruct Hin.
  - pose proof (first_match_in _ _ _ Hm) as [Hin Hs].
    exists (round_half_even (linear c bp)).
    pose proof (index_in_segment c bp (co_proper bp Hin) Hs) as Hb.
    split; [|split; [exact Hb|]].
    + unfold calculate_aqi_co. rewrite (scan_first_match _ _ _ Hm).
      rewrite interpolate_exact by (apply in_or_app; right; exact Hin). reflexivity.
    + cbn [breakpoints_co In] in Hin.
      repeat (destruct Hin as [<-|Hin]; [cbn [aqi_low aqi_high] in Hb; lia|]).
      destruct Hin.
Qed.

Ltac decide_leb :=
  repeat match goal with
         | |- context [?a <=? ?b] =>
             first [ rewrite (proj2 (Z.leb_le a b)) by lia
                   | rewrite (proj2 (Z.leb_gt a b)) by lia ]
         end.

(** A segment of either table carries the label and the colour of the band
    of each index within its declared indices. *)
Lemma segment_band (bp : breakpoint) (i : Z) :
  In bp (breakpoints_pm25 ++ breakpoints_co) ->
  aqi_low bp <= i <= aqi_high bp ->
  category bp = category_label (general_band i)
  /\ color bp = category_color (general_band i).
Proof.
  intros Hin Hi. cbn [app breakpoints_pm25 breakpoints_co In] in Hin.
  unfold general_band.
  repeat (destruct Hin as [<-|Hin];
          [cbn [aqi_low aqi_high category color] in *; decide_leb;
           split; reflexivity|]).
  destruct Hin.
Qed.

(** In exact arithmetic, a calculator returns, with a defined index, the
    label and the colour of the band of that index. *)
Lemma scan_category_band (breakpoints : list breakpoint) (c : Q)
      (i : Z) (cat col : string) :
  (forall bp, In bp breakpoints -> In bp (breakpoints_pm25 ++ breakpoints_co)) ->
  (forall bp, In bp breakpoints -> proper bp) ->
  scan_breakpoints breakpoints c = inr (Some i, cat, col) ->
  cat = category_label (general_band i) /\ col = category_color (general_band i).
Proof.
  intros Hsub Hproper Hr.
  apply scan_exact in Hr as [[_ Hr]|(bp & Hm & Hr)];
    [discriminate Hr | | exact Hsub].
  injection Hr as -> -> ->.
  pose proof (first_match_in _ _ _ Hm) as [Hin Hs].
  apply segment_band; [exact (Hsub _ Hin)|].
  exact (index_in_segment c bp (Hproper bp Hin) Hs).
Qed.

Lemma pm25_in_tables (bp : breakpoint) :
  In bp breakpoints_pm25 -> In bp (breakpoints_pm25 ++ breakpoints_co).
Proof. intros Hin. apply in_or_app. left. exact Hin. Qed.

Lemma co_in_tables (bp : breakpoint) :
  In bp breakpoints_co -> In bp (breakpoints_pm25 ++ breakpoints_co).
Proof. intros Hin. apply in_or_app. right. exact Hin. Qed.

(** In exact arithmetic, the category and the colour that a calculator
    returns with a defined index are the label and the colour of the band in
    which the general thresholds put that index: the per-pollutant category
    and the index never disagree. *)
Lemma exact_category_is_band_of_index :
  forall (c : Q) (i : Z) (cat col : string),
    (calculate_aqi_pm25 c = inr (Some i, cat, col) ->
     cat = category_label (general_band i) /\ col = category_color (general_band i))
    /\ (calculate_aqi_co c = inr (Some i, cat, col) ->
        cat = category_label (general_band i) /\ col = category_color (general_band i)).
Proof.
  intros c i cat col. split.
  - exact (scan_category_band _ c i cat col pm25_in_tables pm25_proper).
  - exact (scan_category_band _ c i cat col co_in_tables co_proper).
Qed.

(** In exact arithmetic, when the overall index of a reading is
    defined, the overall category and colour are the category and the colour
    of a pollutant whose index is the overall index: re-classifying the
    largest index gives the category of the worst pollutant. *)
Lemma exact_overall_category_is_worst_pollutant :
  forall (r : reading Q) (d : Df.columns) (i : Z),
    derive r = inr d ->
    Df.aqi d = Some i ->
    (Df.aqi_pm25 d = Some i /\ Df.category d = Df.category_pm25 d
     /\ Df.color d = Df.color_pm25 d)
    \/ (Df.aqi_co d = Some i /\ Df.category d = Df.category_co d
        /\ Df.color d = Df.color_co d).
Proof.
  intros r d i Hd Hi.
  pose proof (np_select_general_band (Df.aqi d) (fun j => derive_index_nonneg r d j Hd))
    as [Hcat Hcol].
  apply derive_inr in Hd as (Hpm & Hco & Haqi & Hc & Hk).
  rewrite Hc, Hk, Hcat, Hcol, Hi. cbn [reclassify].
  pose proof (row_max_spec [Df.aqi_pm25 d; Df.aqi_co d]) as Hspec.
  rewrite <- Haqi, Hi in Hspec. destruct Hspec as [[Hin|[Hin|[]]] _].
  - left. split; [exact Hin|]. rewrite Hin in Hpm.
    destruct (scan_category_band _ _ _ _ _ pm25_in_tables pm25_proper Hpm) as [-> ->].
    split; reflexivity.
  - right. split; [exact Hin|]. rewrite Hin in Hco.
    destruct (scan_category_band _ _ _ _ _ co_in_tables co_proper Hco) as [-> ->].
    split; reflexivity.
Qed.

(** ** The segments of a table do not overlap *)

Section Disjoint.

Context {T : Type} `{PyNumberLaws T}.

(** In an ascending table, the upper bound of the first segment is below
    the lower bound of every later one. *)
Lemma first_high_below_later (bp : breakpoint) (rest : list breakpoint) :
  ascending (T := T) (bp :: rest) = true ->
  forall b, In b rest -> (literal (bp_high bp) <? literal (bp_low b))%py = true.
Proof.
  revert bp. induction rest as [|next rest IH]; intros bp Hasc b Hb; [destruct Hb|].
  cbn [ascending] in Hasc.
  apply andb_prop in Hasc as [Hasc Hrest]. apply andb_prop in Hasc as [_ Hnext].
  destruct Hb as [<-|Hb]; [exact Hnext|].
  eapply lt_trans; [|exact (IH next Hrest b Hb)].
  eapply lt_le_trans; [exact Hnext|].
  cbn [ascending] in Hrest.
  apply andb_prop in Hrest as [Hrest _]. apply andb_prop in Hrest as [Hle _].
  exact Hle.
Qed.

(** A concentration the first segment holds is in no later segment. *)
Lemma in_first_not_later (bp : breakpoint) (rest : list breakpoint) (x : T) :
  ascending (T := T) (bp :: rest) = true ->
  in_segment x bp = true ->
  forall b, In b rest -> in_segment x b = false.
Proof.
  intros Hasc Hx b Hb.
  pose proof (first_high_below_later bp rest Hasc b Hb) as Hlt.
  unfold in_segment in *. apply andb_prop in Hx as [_ Hhi].
  destruct (literal (bp_low b) <=? x)%py eqn:Hlo; [|reflexivity].
  pose proof (lt_le_trans _ _ _ Hlt Hlo) as Habove.
  rewrite (lt_not_ge _ _ Habove) in Hhi. discriminate Hhi.
Qed.

Lemma ascending_tail (bp : breakpoint) (rest : list breakpoint) :
  ascending (T := T) (bp :: rest) = true -> ascending (T := T) rest = true.
Proof.
  cbn [ascending]. intros Hasc. apply andb_prop in Hasc as [_ Hrest]. exact Hrest.
Qed.

(** In an ascending table, the segment that holds a concentration is the one
    the scan selects. *)
Lemma ascending_first_match (breakpoints : list breakpoint) (x : T) (bp : breakpoint) :
  ascending (T := T) breakpoints = true ->
  In bp breakpoints -> in_segment x bp = true ->
  first_match breakpoints x = Some bp.
Proof.
  unfold first_match.
  induction breakpoints as [|b rest IH]; intros Hasc Hin Hx; [destruct Hin|].
  cbn [find]. destruct (in_segment x b) eqn:Hb.
  - destruct Hin as [->|Hin]; [reflexivity|].
    rewrite (in_first_not_later b rest x Hasc Hb bp Hin) in Hx. discriminate Hx.
  - destruct Hin as [->|Hin]; [rewrite Hx in Hb; discriminate Hb|].
    exact (IH (ascending_tail _ _ Hasc) Hin Hx).
Qed.

End Disjoint.

(** X5.  In binary64 and in exact arithmetic alike, the segments of a table do
    not overlap: two segments of a table that hold the same concentration
    are the same segment, and it is the one the scan selects, so that the
    order of the scan does not matter. *)
Theorem segments_do_not_overlap :
  forall (T : Type) (N : PyNumber T) (L : PyNumberLaws T) (x : T) (bp1 bp2 : breakpoint),
    (In bp1 breakpoints_pm25 -> In bp2 breakpoints_pm25 ->
     in_segment x bp1 = true -> in_segment x bp2 = true ->
     bp1 = bp2 /\ first_match breakpoints_pm25 x = Some bp1)
    /\ (In bp1 breakpoints_co -> In bp2 breakpoints_co ->
        in_segment x bp1 = true -> in_segment x bp2 = true ->
        bp1 = bp2 /\ first_match breakpoints_co x = Some bp1).
Proof.
  intros T N L x bp1 bp2. destruct tables_ascending as [Hpm Hco].
  split; intros H1 H2 Hx1 Hx2.
  - pose proof (ascending_first_match _ x bp1 Hpm H1 Hx1) as Hm1.
    pose proof (ascending_first_match _ x bp2 Hpm H2 Hx2) as Hm2.
    split; [congruence | exact Hm1].
  - pose proof (ascending_first_match _ x bp1 Hco H1 Hx1) as Hm1.
    pose proof (ascending_first_match _ x bp2 Hco H2 Hx2) as Hm2.
    split; [congruence | exact Hm1].
Qed.

(** The theorem at the PM2.5 concentration 200, on floats. *)
Lemma segments_do_not_overlap_witness :
  Breakpoint 150.5%Q 250.4%Q 201 300 "Muy Insalubre" "#99004C"
  = Breakpoint 150.5%Q 250.4%Q 201 300 "Muy Insalubre" "#99004C"
  /\ first_match breakpoints_pm25 200%float
     = Some (Breakpoint 150.5%Q 250.4%Q 201 300 "Muy Insalubre" "#99004C").
Proof.
  refine (proj1 (segments_do_not_overlap float _ _ 200%float
                   (Breakpoint 150.5%Q 250.4%Q 201 300 "Muy Insalubre" "#99004C")
                   (Breakpoint 150.5%Q 250.4%Q 201 300 "Muy Insalubre" "#99004C"))
                _ _ eq_refl eq_refl);
    do 4 right; left; reflexivity.
Defined.

(** The label of no segment is the out-of-range one, and no colour of a
    segment is black. *)
Lemma segment_label_in_range (bp : breakpoint) :
  In bp (breakpoints_pm25 ++ breakpoints_co) ->
  category bp <> "Fuera de rango" /\ color bp <> "#000000".
Proof.
  intros Hin. cbn [app breakpoints_pm25 breakpoints_co In] in Hin.
  repeat (destruct Hin as [<-|Hin]; [split; discriminate|]).
  destruct Hin.
Qed.

Lemma scan_result_shape {T : Type} `{PyNumber T}
      (breakpoints : list breakpoint) (x : T) (res : aqi_result) :
  scan_breakpoints breakpoints x = inr res ->
  (first_match breakpoints x = None /\ res = out_of_range)
  \/ exists bp i, first_match breakpoints x = Some bp
                  /\ res = (Some i, category bp, color bp).
Proof.
  intros Hres. destruct (first_match breakpoints x) as [bp|] eqn:Hm.
  - right. exists bp. rewrite (scan_first_match _ _ _ Hm) in Hres.
    destruct (interpolate x bp) as [e|aqi]; [discriminate Hres|].
    cbn [bind ret Monad_py Monad_either] in Hres.
    destruct (num_round aqi) as [e|i]; [discriminate Hres|].
    exists i. injection Hres as <-. split; reflexivity.
  - left. rewrite (scan_no_match _ _ Hm) in Hres. injection Hres as <-.
    split; reflexivity.
Qed.

(** X6.  In every arithmetic, when a calculator returns, these are
    equivalent: the index is undefined; no segment of the table holds the
    concentration; the category is "Fuera de rango"; the colour is black,
    [#000000]. *)
Theorem undefined_index_iff_out_of_range :
  forall (T : Type) (N : PyNumber T) (x : T) (index : option Z) (cat col : string),
    (calculate_aqi_pm25 x = inr (index, cat, col) ->
     (index = None <-> first_match breakpoints_pm25 x = None)
     /\ (index = None <-> cat = "Fuera de rango")
     /\ (index = None <-> col = "#000000"))
    /\ (calculate_aqi_co x = inr (index, cat, col) ->
        (index = None <-> first_match breakpoints_co x = None)
        /\ (index = None <-> cat = "Fuera de rango")
        /\ (index = None <-> col = "#000000")).
Proof.
  intros T N x index cat col. split; intros Hr.
  - apply scan_result_shape in Hr as [[Hm Hr]|(bp & i & Hm & Hr)];
      injection Hr as -> -> ->; rewrite Hm.
    + repeat split; reflexivity.
    + apply first_match_in in Hm as [Hin _].
      destruct (segment_label_in_range bp (pm25_in_tables bp Hin)) as [Hc Hk].
      repeat split; intros; try discriminate; contradiction.
  - apply scan_result_shape in Hr as [[Hm Hr]|(bp & i & Hm & Hr)];
      injection Hr as -> -> ->; rewrite Hm.
    + repeat split; reflexivity.
    + apply first_match_in in Hm as [Hin _].
      destruct (segment_label_in_range bp (co_in_tables bp Hin)) as [Hc Hk].
      repeat split; intros; try discriminate; contradiction.
Qed.

(** The theorem at the PM2.5 concentration 12.05, on floats. *)
Lemma undefined_index_iff_out_of_range_witness :
  (@None Z = None <-> first_match breakpoints_pm25 12.05%float = None)
  /\ (@None Z = None <-> "Fuera de rango" = "Fuera de rango")
  /\ (@None Z = None <-> "#000000" = "#000000").
Proof.
  exact (proj1 (undefined_index_iff_out_of_range float _ 12.05%float None
                  "Fuera de rango" "#000000") eq_refl).
Defined.

(** ** The whole data frame *)

Section FrameFacts.

Context {T : Type} `{PyNumber T}.

Lemma series_apply_inr {A B : Type} (f : A -> py B) (column : list A) (ys : list B) :
  series_apply f column = inr ys <-> Forall2 (fun x y => f x = inr y) column ys.
Proof.
  revert ys. induction column as [|x rest IH]; intros ys; cbn [series_apply].
  - split.
    + intros [= <-]. constructor.
    + intros Hall. inversion Hall. reflexivity.
  - destruct (f x) as [e|y] eqn:Hx; cbn [bind ret Monad_py Monad_either].
    + split; [discriminate|]. intros Hall. inversion Hall; subst. congruence.
    + destruct (series_apply f rest) as [e|ys'] eqn:Hrest.
      * split; [discriminate|]. intros Hall. inversion Hall as [|? y' ? ys'' Hy Hys]; subst.
        apply IH in Hys. discriminate Hys.
      * split.
        -- intros [= <-]. constructor; [exact Hx | apply IH; reflexivity].
        -- intros Hall. inversion Hall as [|? y' ? ys'' Hy Hys]; subst.
           apply IH in Hys. congruence.
Qed.

Lemma derive_derived_row (r : reading T) (p c : aqi_result) :
  calculate_aqi_pm25 (pm25 r) = inr p -> calculate_aqi_co (co r) = inr c ->
  derive r = inr (derived_row p c).
Proof.
  intros Hp Hc. unfold derive. rewrite Hp, Hc.
  destruct p as [[a1 c1] k1], c as [[a2 c2] k2]. reflexivity.
Qed.

(** The nine columns of two series of results, read side by side, are the
    derived rows of the pairs of results. *)
Lemma frame_rows_derived (ps cs : list aqi_result) :
  let aqi := map (fun cells => row_max [fst cells; snd cells])
                 (combine (map (fun t => fst (fst t)) ps) (map (fun t => fst (fst t)) cs)) in
  frame_rows (map (fun t => fst (fst t)) ps) (map (fun t => snd (fst t)) ps) (map snd ps)
             (map (fun t => fst (fst t)) cs) (map (fun t => snd (fst t)) cs) (map snd cs)
             aqi
             (map (fun a => np_select (conditions a) categories "Fuera de rango") aqi)
             (map (fun a => np_select (conditions a) colors "#000000") aqi)
  = map (fun pc => derived_row (fst pc) (snd pc)) (combine ps cs).
Proof.
  cbv zeta. unfold frame_rows. revert cs.
  induction ps as [|p ps IH]; intros cs; [reflexivity|].
  destruct cs as [|c cs]; [reflexivity|].
  cbn [map combine fst snd]. f_equal. exact (IH cs).
Qed.

Lemma add_aqi_columns_inr (df : list (reading T)) (ps cs : list aqi_result) :
  df <> [] ->
  series_apply calculate_aqi_pm25 (map pm25 df) = inr ps ->
  series_apply calculate_aqi_co (map co df) = inr cs ->
  add_aqi_columns df = inr (map (fun pc => derived_row (fst pc) (snd pc)) (combine ps cs)).
Proof.
  intros Hdf Hps Hcs. unfold add_aqi_columns. rewrite Hps, Hcs.
  apply series_apply_inr in Hps, Hcs.
  destruct df as [|r df]; [contradiction|].
  inversion Hps as [|? p ? ps' _ _]; subst. inversion Hcs as [|? c ? cs' _ _]; subst.
  cbn [bind ret Monad_py Monad_either unzip3].
  f_equal. exact (frame_rows_derived (p :: ps') (c :: cs')).
Qed.

Lemma derived_rows_of_results (df : list (reading T)) (ps cs : list aqi_result) :
  Forall2 (fun x p => calculate_aqi_pm25 x = inr p) (map pm25 df) ps ->
  Forall2 (fun x c => calculate_aqi_co x = inr c) (map co df) cs ->
  Forall2 (fun r d => derive r = inr d) df
          (map (fun pc => derived_row (fst pc) (snd pc)) (combine ps cs)).
Proof.
  revert ps cs. induction df as [|r df IH]; intros ps cs Hps Hcs.
  - inversion Hps; subst. constructor.
  - inversion Hps as [|? p ? ps' Hp Hps']; subst.
    inversion Hcs as [|? c ? cs' Hc Hcs']; subst.
    cbn [combine map fst snd]. constructor.
    + exact (derive_derived_row r p c Hp Hc).
    + exact (IH ps' cs' Hps' Hcs').
Qed.

Lemma results_of_derived_rows (df : list (reading T)) (rows : list Df.columns) :
  Forall2 (fun r d => derive r = inr d) df rows ->
  exists ps cs,
    Forall2 (fun x p => calculate_aqi_pm25 x = inr p) (map pm25 df) ps
    /\ Forall2 (fun x c => calculate_aqi_co x = inr c) (map co df) cs
    /\ rows = map (fun pc => derived_row (fst pc) (snd pc)) (combine ps cs).
Proof.
  induction 1 as [|r d df rows Hd _ (ps & cs & Hps & Hcs & ->)].
  - exists [], []. repeat split; constructor.
  - pose proof (derive_inr r d Hd) as (Hp & Hc & _).
    exists ((Df.aqi_pm25 d, Df.category_pm25 d, Df.color_pm25 d) :: ps),
           ((Df.aqi_co d, Df.category_co d, Df.color_co d) :: cs).
    repeat split; try (constructor; assumption).
    cbn [combine map fst snd]. f_equal.
    rewrite (derive_derived_row r _ _ Hp Hc) in Hd. injection Hd as <-. reflexivity.
Qed.

End FrameFacts.

(** X7.  In every arithmetic, the block that adds the AQI columns raises
    [ValueError] on an empty data frame (there is nothing for [zip] to
    unpack); on a frame that is not empty it returns exactly when the
    derivation of every row returns, and then its rows are, row by row and
    in the order of the frame, the derived columns of the rows. *)
Theorem add_aqi_columns_row_by_row :
  forall (T : Type) (N : PyNumber T) (df : list (reading T)),
    (df = [] -> add_aqi_columns df = inl ValueError)
    /\ (df <> [] ->
        forall rows : list Df.columns,
          add_aqi_columns df = inr rows <->
          Forall2 (fun r d => derive r = inr d) df rows).
Proof.
  intros T N df. split.
  - intros ->. reflexivity.
  - intros Hdf rows. split.
    + intros Hrows.
      destruct (series_apply calculate_aqi_pm25 (map pm25 df)) as [e|ps] eqn:Hps.
      { unfold add_aqi_columns in Hrows. rewrite Hps in Hrows. discriminate Hrows. }
      destruct (series_apply calculate_aqi_co (map co df)) as [e|cs] eqn:Hcs.
      { unfold add_aqi_columns in Hrows. rewrite Hps, Hcs in Hrows.
        cbn [bind ret Monad_py Monad_either] in Hrows.
        destruct (unzip3 ps) as [e'|[[? ?] ?]]; discriminate Hrows. }
      rewrite (add_aqi_columns_inr df ps cs Hdf Hps Hcs) in Hrows.
      injection Hrows as <-.
      apply derived_rows_of_results; apply series_apply_inr; assumption.
    + intros Hall.
      apply results_of_derived_rows in Hall as (ps & cs & Hps & Hcs & ->).
      apply add_aqi_columns_inr; [exact Hdf | |]; apply series_apply_inr; assumption.
Qed.

(** The theorem at a frame of one row, of PM2.5 200 and CO 1, on floats. *)
Lemma add_aqi_columns_row_by_row_witness :
  add_aqi_columns [Reading "2024-01-01 00:00:00" 200%float 0%float 1%float 20%float 50%float]
  = inr [Df.Columns (Some 250) "Muy Insalubre" "#99004C" (Some 11) "Bueno" "#00E400"
                    (Some 250) "Muy Insalubre" "#99004C"].
Proof.
  refine (proj2 (proj2 (add_aqi_columns_row_by_row float _
                          [Reading "2024-01-01 00:00:00" 200%float 0%float 1%float 20%float 50%float])
                       _ _) _).
  - discriminate.
  - constructor; [reflexivity | constructor].
Defined.

(** In exact arithmetic a scan of one of the two tables returns. *)
Lemma scan_returns (breakpoints : list breakpoint) (c : Q) :
  (forall bp, In bp breakpoints -> In bp (breakpoints_pm25 ++ breakpoints_co)) ->
  exists res, scan_breakpoints breakpoints c = inr res.
Proof.
  intros Hsub. destruct (first_match breakpoints c) as [bp|] eqn:Hm.
  - rewrite (scan_first_match _ _ _ Hm).
    apply first_match_in in Hm as [Hin _].
    rewrite (interpolate_exact _ _ (Hsub _ Hin)). eexists. reflexivity.
  - rewrite (scan_no_match _ _ Hm). eexists. reflexivity.
Qed.

Lemma series_apply_returns {A B : Type} (f : A -> py B) (column : list A) :
  (forall x, exists y, f x = inr y) ->
  exists ys, series_apply f column = inr ys /\ List.length ys = List.length column.
Proof.
  intros Hf. induction column as [|x rest (ys & Hys & Hlen)]; cbn [series_apply].
  - exists []. split; reflexivity.
  - destruct (Hf x) as [y Hy]. rewrite Hy, Hys. exists (y :: ys).
    split; [reflexivity | cbn [List.length]; rewrite Hlen; reflexivity].
Qed.

(** In exact arithmetic, the block that adds the AQI columns raises
    nothing on a data frame that is not empty, and returns as many rows as
    the frame has. *)
Lemma exact_add_aqi_columns_returns :
  forall df : list (reading Q),
    df <> [] ->
    exists rows : list Df.columns,
      add_aqi_columns df = inr rows /\ List.length rows = List.length df.
Proof.
  intros df Hdf.
  destruct (series_apply_returns calculate_aqi_pm25 (map pm25 df))
    as (ps & Hps & Hlp).
  { intros c. apply scan_returns. intros bp Hin. apply in_or_app. left. exact Hin. }
  destruct (series_apply_returns calculate_aqi_co (map co df))
    as (cs & Hcs & Hlc).
  { intros c. apply scan_returns. intros bp Hin. apply in_or_app. right. exact Hin. }
  eexists. split; [exact (add_aqi_columns_inr df ps cs Hdf Hps Hcs)|].
  rewrite length_map, length_combine, Hlp, Hlc, !length_map. apply Nat.min_id.
Qed.

Lemma np_select_cases (aqi : option Z) :
  let cat := np_select (conditions aqi) categories "Fuera de rango" in
  let col := np_select (conditions aqi) colors "#000000" in
  (aqi_le aqi 500 = false /\ cat = "Fuera de rango" /\ col = "#000000")
  \/ (aqi_le aqi 500 = true /\ In (cat, col) colors_dict).
Proof.
  cbv zeta. unfold conditions, categories, colors. cbn [np_select].
  destruct (aqi_le aqi 50) eqn:H50; [right; split; [|cbn; tauto]|].
  { destruct aqi as [i|]; [|discriminate]. cbn in *. apply Z.leb_le in H50. apply Z.leb_le. lia. }
  destruct (aqi_le aqi 100) eqn:H100; [right; split; [|cbn; tauto]|].
  { destruct aqi as [i|]; [|discriminate]. cbn in *. apply Z.leb_le in H100. apply Z.leb_le. lia. }
  destruct (aqi_le aqi 150) eqn:H150; [right; split; [|cbn; tauto]|].
  { destruct aqi as [i|]; [|discriminate]. cbn in *. apply Z.leb_le in H150. apply Z.leb_le. lia. }
  destruct (aqi_le aqi 200) eqn:H200; [right; split; [|cbn; tauto]|].
  { destruct aqi as [i|]; [|discriminate]. cbn in *. apply Z.leb_le in H200. apply Z.leb_le. lia. }
  destruct (aqi_le aqi 300) eqn:H300; [right; split; [|cbn; tauto]|].
  { destruct aqi as [i|]; [|discriminate]. cbn in *. apply Z.leb_le in H300. apply Z.leb_le. lia. }
  destruct (aqi_le aqi 500) eqn:H500; [right; split; [reflexivity|cbn; tauto]|].
  left. repeat split.
Qed.

(** X9.  In every arithmetic and for every row the derivation returns for:
    the overall category is dropped from the bar chart of the categories
    (it is not one of [category_order]) exactly when it is "Fuera de rango",
    which is exactly when the overall index is undefined or above 500; any
    other category is charted under its own name, in the colour of the
    [color] column of the row. *)
Theorem chart_category_and_colour :
  forall (T : Type) (N : PyNumber T) (r : reading T) (d : Df.columns),
    derive r = inr d ->
    (categorical category_order (Df.category d) = None <->
     Df.category d = "Fuera de rango")
    /\ (Df.category d = "Fuera de rango" <-> aqi_le (Df.aqi d) 500 = false)
    /\ (forall c, categorical category_order (Df.category d) = Some c ->
                  c = Df.category d /\ dict_get colors_dict c = Some (Df.color d)).
Proof.
  intros T N r d Hd. apply derive_inr in Hd as (_ & _ & _ & Hc & Hk).
  pose proof (np_select_cases (Df.aqi d)) as Hcases. cbv zeta in Hcases.
  rewrite <- Hc, <- Hk in Hcases.
  destruct Hcases as [(H500 & Hcat & Hcol)|(H500 & Hin)].
  - rewrite Hcat, H500. split; [|split].
    + split; reflexivity.
    + split; reflexivity.
    + intros c Hs. discriminate Hs.
  - rewrite H500. cbn [colors_dict In] in Hin.
    repeat (destruct Hin as [[= <- <-]|Hin];
            [split; [|split];
             [split; discriminate
             |split; discriminate
             |intros c Hs; injection Hs as <-; split; reflexivity]|]).
    destruct Hin.
Qed.

(** X10.  In every arithmetic and for every row the derivation returns for:
    when the overall index is defined and at most 500, the style
    [color_aqi] gives its cell is the background of the [color] column of the
    row; when it is undefined or above 500, the cell is painted in
    [#7E0023], the colour of "Peligroso", although the [color] column holds
    black. *)
Theorem color_aqi_against_colour_column :
  forall (T : Type) (N : PyNumber T) (r : reading T) (d : Df.columns),
    derive r = inr d ->
    (aqi_le (Df.aqi d) 500 = true ->
     color_aqi (Df.aqi d) = "background-color: " ++ Df.color d)
    /\ (aqi_le (Df.aqi d) 500 = false ->
        color_aqi (Df.aqi d) = "background-color: #7E0023"
        /\ Df.color d = "#000000").
Proof.
  intros T N r d Hd. apply derive_inr in Hd as (_ & _ & _ & _ & Hk).
  rewrite Hk. unfold color_aqi, conditions, colors. cbn [np_select].
  destruct (Df.aqi d) as [i|]; cbn [aqi_le].
  - repeat match goal with
           | |- context [?a <=? ?b] => destruct (Z.leb_spec a b)
           end;
      (split; intros Hb; try discriminate Hb; try reflexivity;
       try (split; reflexivity); lia).
  - split; [discriminate | intros _; split; reflexivity].
Qed.

(** ** The tile of the average *)

Section KpiOrder.

Context {T : Type} `{PyNumber T}.
Hypothesis le_trans :
  forall a b c : T, (a <=? b)%py = true -> (b <=? c)%py = true -> (a <=? c)%py = true.

Lemma kpi_monotone (a b : T) :
  (a <=? b)%py = true ->
  (severity_rank (snd (kpi a)) <= severity_rank (snd (kpi b)))%nat.
Proof.
  intros Hab. unfold kpi.
  repeat match goal with
         | |- context [(b <=? ?t)%py] =>
             let Hb := fresh "Hb" in
             destruct (b <=? t)%py eqn:Hb;
             [rewrite (le_trans a b t Hab Hb)|]
         end;
  repeat match goal with
         | |- context [(a <=? ?t)%py] => destruct (a <=? t)%py
         end;
  cbn; lia.
Qed.

End KpiOrder.

Lemma SFleb_trans (a b c : spec_float) :
  SFleb a b = true -> SFleb b c = true -> SFleb a c = true.
Proof.
  destruct a as [[|]|[|]| |[|] ? ?], b as [[|]|[|]| |[|] ? ?], c as [[|]|[|]| |[|] ? ?];
    order_cases.
Qed.

(** X11.  On floats and in exact arithmetic, the category of the tile of
    the average never gets milder as the average grows. *)
Theorem kpi_is_monotone :
  (forall a b : float, (a <=? b)%float = true ->
     (severity_rank (snd (kpi a)) <= severity_rank (snd (kpi b)))%nat)
  /\ (forall a b : Q, (a <= b)%Q ->
        (severity_rank (snd (kpi a)) <= severity_rank (snd (kpi b)))%nat).
Proof.
  split.
  - intros a b Hab. apply kpi_monotone; [|exact Hab].
    intros x y z. cbn [num_le PyNumber_float].
    rewrite !FloatAxioms.leb_spec. apply SFleb_trans.
  - intros a b Hab. apply kpi_monotone.
    + intros x y z Hxy Hyz. apply Qle_bool_iff in Hxy, Hyz. apply Qle_bool_iff.
      exact (Qle_trans _ _ _ Hxy Hyz).
    + apply Qle_bool_iff. exact Hab.
Qed.

(** The theorem at the averages 42.5 and 180, on floats. *)
Lemma kpi_is_monotone_witness :
  (severity_rank (snd (kpi 42.5%float)) <= severity_rank (snd (kpi 180%float)))%nat.
Proof.
  exact (proj1 kpi_is_monotone 42.5%float 180%float eq_refl).
Defined.

(** In every arithmetic, the tile of the average never shows
    "Fuera de rango": its category and colour are always one of the six
    pairs of the legend.  On floats an undefined average (a NaN) is shown as
    "Peligroso", where the [np.select] of the rows gives "Fuera de rango" to an
    undefined index. *)
Theorem kpi_never_out_of_range :
  (forall (T : Type) (N : PyNumber T) (avg_aqi : T),
      In (snd (kpi avg_aqi), fst (kpi avg_aqi)) colors_dict)
  /\ kpi nan = ("#7E0023", "Peligroso")
  /\ np_select (conditions None) categories "Fuera de rango" = "Fuera de rango".
Proof.
  split; [|split; reflexivity].
  intros T N avg. unfold kpi.
  repeat match goal with
         | |- context [(avg <=? ?t)%py] => destruct (avg <=? t)%py
         end; cbn; tauto.
Qed.

(** ** The filter on dates *)

Ltac date_order :=
  unfold date_le in *;
  repeat match goal with
         | H : _ = true |- _ =>
             rewrite ?orb_true_iff, ?andb_true_iff, ?Z.ltb_lt, ?Z.eqb_eq, ?Z.leb_le in H
         | H : _ = false |- _ =>
             apply not_true_iff_false in H;
             rewrite ?orb_true_iff, ?andb_true_iff, ?Z.ltb_lt, ?Z.eqb_eq, ?Z.leb_le in H
         end;
  rewrite ?orb_true_iff, ?andb_true_iff, ?Z.ltb_lt, ?Z.eqb_eq, ?Z.leb_le.

Lemma date_le_refl (a : date) : date_le a a = true.
Proof. date_order. lia. Qed.

Lemma date_le_trans (a b c : date) :
  date_le a b = true -> date_le b c = true -> date_le a c = true.
Proof. intros Hab Hbc. date_order. lia. Qed.

Lemma date_le_total (a b : date) : date_le a b = false -> date_le b a = true.
Proof. intros Hab. date_order. lia. Qed.

Section DateFilterFacts.

Variable row : Type.
Variable row_date : row -> date.

Lemma fold_min_below (dates : list date) (m : date) :
  let lo := fold_left (fun m d => if date_le d m then d else m) dates m in
  date_le lo m = true /\ forall d, In d dates -> date_le lo d = true.
Proof.
  cbv zeta. revert m. induction dates as [|d dates IH]; intros m; cbn [fold_left].
  - split; [apply date_le_refl | intros d []].
  - destruct (date_le d m) eqn:Hdm.
    + destruct (IH d) as [Hlo Hall]. split.
      * exact (date_le_trans _ _ _ Hlo Hdm).
      * intros d' [<-|Hd']; [exact Hlo | exact (Hall d' Hd')].
    + destruct (IH m) as [Hlo Hall]. split; [exact Hlo|].
      intros d' [<-|Hd']; [|exact (Hall d' Hd')].
      exact (date_le_trans _ _ _ Hlo (date_le_total _ _ Hdm)).
Qed.

Lemma fold_max_above (dates : list date) (m : date) :
  let hi := fold_left (fun m d => if date_le m d then d else m) dates m in
  date_le m hi = true /\ forall d, In d dates -> date_le d hi = true.
Proof.
  cbv zeta. revert m. induction dates as [|d dates IH]; intros m; cbn [fold_left].
  - split; [apply date_le_refl | intros d []].
  - destruct (date_le m d) eqn:Hmd.
    + destruct (IH d) as [Hhi Hall]. split.
      * exact (date_le_trans _ _ _ Hmd Hhi).
      * intros d' [<-|Hd']; [exact Hhi | exact (Hall d' Hd')].
    + destruct (IH m) as [Hhi Hall]. split; [exact Hhi|].
      intros d' [<-|Hd']; [|exact (Hall d' Hd')].
      exact (date_le_trans _ _ _ (date_le_total _ _ Hmd) Hhi).
Qed.

Lemma filter_all {A : Type} (f : A -> bool) (l : list A) :
  (forall x, In x l -> f x = true) -> filter f l = l.
Proof.
  induction l as [|x l IH]; intros Hall; [reflexivity|].
  cbn [filter]. rewrite (Hall x (or_introl eq_refl)). f_equal.
  apply IH. intros y Hy. apply Hall. right. exact Hy.
Qed.

Lemma default_range_keeps_all (df : list row) (lo hi : date) :
  min_date row_date df = Some lo -> max_date row_date df = Some hi ->
  filtered_df row_date [lo; hi] df = df
  /\ date_le lo hi = true
  /\ forall r, In r df -> date_le lo (row_date r) = true /\ date_le (row_date r) hi = true.
Proof.
  destruct df as [|r0 rest]; [discriminate|].
  cbn [min_date max_date]. intros [= <-] [= <-].
  destruct (fold_min_below (map row_date rest) (row_date r0)) as [Hlo0 Hlo].
  destruct (fold_max_above (map row_date rest) (row_date r0)) as [Hhi0 Hhi].
  assert (Hin : forall r, In r (r0 :: rest) ->
                  date_le (fold_left (fun m d => if date_le d m then d else m)
                                     (map row_date rest) (row_date r0)) (row_date r) = true
                  /\ date_le (row_date r)
                             (fold_left (fun m d => if date_le m d then d else m)
                                        (map row_date rest) (row_date r0)) = true).
  { intros r [<-|Hr]; [split; assumption|].
    split; [apply Hlo | apply Hhi]; apply in_map; exact Hr. }
  split; [|split].
  - cbn [filtered_df]. apply filter_all. intros r Hr.
    destruct (Hin r Hr) as [-> ->]. reflexivity.
  - exact (date_le_trans _ _ _ Hlo0 Hhi0).
  - exact Hin.
Qed.

End DateFilterFacts.

(** X12.  With the default range of the date picker, from the earliest to
    the latest date of the data frame, the filter keeps every row of the
    frame, in order; the two dates are in order. *)
Theorem default_date_range_selects_everything :
  forall (row : Type) (row_date : row -> date) (df : list row) (lo hi : date),
    min_date row_date df = Some lo ->
    max_date row_date df = Some hi ->
    filtered_df row_date [lo; hi] df = df /\ date_le lo hi = true.
Proof.
  intros row row_date df lo hi Hlo Hhi.
  destruct (default_range_keeps_all row row_date df lo hi Hlo Hhi) as (Hall & Hle & _).
  split; assumption.
Qed.

(** The theorem at a frame of three rows, dated out of order. *)
Lemma default_date_range_selects_everything_witness :
  filtered_df fst [Date 2024 1 31; Date 2024 3 1]
              [(Date 2024 2 10, 42); (Date 2024 1 31, 57); (Date 2024 3 1, 12)]
  = [(Date 2024 2 10, 42); (Date 2024 1 31, 57); (Date 2024 3 1, 12)]
  /\ date_le (Date 2024 1 31) (Date 2024 3 1) = true.
Proof.
  exact ((default_date_range_selects_everything (date * Z) fst
                  [(Date 2024 2 10, 42); (Date 2024 1 31, 57); (Date 2024 3 1, 12)]
                  (Date 2024 1 31) (Date 2024 3 1) eq_refl eq_refl)).
Defined.

(** The theorem at a row whose two concentrations are out of range, on floats. *)
Lemma chart_category_and_colour_witness :
  (categorical category_order "Fuera de rango" = None <->
   "Fuera de rango" = "Fuera de rango")
  /\ ("Fuera de rango" = "Fuera de rango" <-> aqi_le None 500 = false)
  /\ (forall c, categorical category_order "Fuera de rango" = Some c ->
                c = "Fuera de rango" /\ dict_get colors_dict c = Some "#000000").
Proof.
  exact (chart_category_and_colour float _
           (Reading "2024-01-01 00:00:00" 12.05%float 0%float 60%float 20%float 50%float)
           (Df.Columns None "Fuera de rango" "#000000" None "Fuera de rango" "#000000"
                       None "Fuera de rango" "#000000")
           eq_refl).
Defined.

(** The theorem at the reading of PM2.5 200 and CO 1, on floats. *)
Lemma color_aqi_against_colour_column_witness :
  (aqi_le (Some 250) 500 = true ->
   color_aqi (Some 250) = "background-color: " ++ "#99004C")
  /\ (aqi_le (Some 250) 500 = false ->
      color_aqi (Some 250) = "background-color: #7E0023" /\ "#99004C" = "#000000").
Proof.
  exact (color_aqi_against_colour_column float _
           (Reading "2024-01-01 00:00:00" 200%float 0%float 1%float 20%float 50%float)
           (Df.Columns (Some 250) "Muy Insalubre" "#99004C" (Some 11) "Bueno" "#00E400"
                       (Some 250) "Muy Insalubre" "#99004C")
           eq_refl).
Defined.

(** ** The rounding of binary64 *)

(** [SpecFloat] specifies each operation of binary64 as the exact operation
    on mantissas followed by a shift of the mantissa and a rounding to the
    nearest, a tie going to the even mantissa.  The lemmas below read that
    rounding on integers: [rdiv] rounds a quotient, [rho] rounds a value
    counted in units of [2^s], and [rho] keeps the order.  From them, each of
    [x - bp_low], [slope * d] and [p + aqi_low] keeps the order of its
    argument, and so does the index the calculators round the sum to. *)

Lemma rdiv_spec (a d : Z) :
  0 < d ->
  rdiv a d =
    match 2 * (a mod d) ?= d with
    | Lt => a / d
    | Gt => a / d + 1
    | Eq => if Z.even (a / d) then a / d else a / d + 1
    end.
Proof.
  intros Hd. unfold rdiv, round_half_even.
  assert (Hfl : Qfloor (a # Z.to_pos d) = a / d).
  { unfold Qfloor. rewrite Z2Pos.id by exact Hd. reflexivity. }
  rewrite Hfl.
  assert (Hc : ((a # Z.to_pos d) - inject_Z (a / d) ?= 1 # 2)%Q = (2 * (a mod d) ?= d)).
  { unfold Qcompare, Qminus, Qplus, Qopp, inject_Z. cbn [Qnum Qden].
    rewrite Z2Pos.id by exact Hd.
    rewrite Pos.mul_1_r, Z2Pos.id by exact Hd.
    pose proof (Z.div_mod a d ltac:(lia)) as Hdm.
    replace ((a * 1 + - (a / d) * d) * 2) with (2 * (a mod d)) by lia.
    replace (1 * d) with d by lia. reflexivity. }
  rewrite Hc. reflexivity.
Qed.

Lemma rdiv_mono (a b d : Z) : 0 < d -> a <= b -> rdiv a d <= rdiv b d.
Proof.
  intros Hd Hab. unfold rdiv. apply round_half_even_mono.
  unfold Qle. cbn [Qnum Qden]. apply Z.mul_le_mono_nonneg_r; lia.
Qed.

Lemma rdiv_exact (k d : Z) : 0 < d -> rdiv (k * d) d = k.
Proof.
  intros Hd. unfold rdiv. rewrite <- (round_half_even_Z k) at 2.
  apply round_half_even_comp. unfold Qeq, inject_Z. cbn [Qnum Qden].
  rewrite Z2Pos.id by exact Hd. lia.
Qed.

Lemma rdiv_scale (a d c : Z) : 0 < d -> 0 < c -> rdiv (a * c) (d * c) = rdiv a d.
Proof.
  intros Hd Hc. unfold rdiv. apply round_half_even_comp.
  unfold Qeq. cbn [Qnum Qden]. rewrite !Z2Pos.id by lia. lia.
Qed.

Lemma rdiv_1 (a : Z) : rdiv a 1 = a.
Proof. rewrite <- (rdiv_exact a 1) at 2 by lia. f_equal. lia. Qed.

Lemma rdiv_nonneg (a d : Z) : 0 < d -> 0 <= a -> 0 <= rdiv a d.
Proof.
  intros Hd Ha. rewrite <- (rdiv_exact 0 d Hd). apply rdiv_mono; lia.
Qed.

(** ** Shifting a mantissa right *)

Lemma shr_1_nonneg (m : Z) (r s : bool) :
  0 <= m ->
  shr_1 (Build_shr_record m r s) = Build_shr_record (m / 2) (Z.odd m) (r || s).
Proof.
  intros Hm. destruct m as [|p|p]; [reflexivity| |lia].
  destruct p as [p|p|]; cbn [shr_1].
  - assert (Hq : Zpos p~1 / 2 = Zpos p).
    { symmetry. apply Z.div_unique with (r := 1); lia. }
    rewrite Hq. reflexivity.
  - assert (Hq : Zpos p~0 / 2 = Zpos p).
    { symmetry. apply Z.div_unique with (r := 0); lia. }
    rewrite Hq. reflexivity.
  - reflexivity.
Qed.

Lemma represents_0 (m0 : Z) : represents m0 0 (shr_record_of_loc m0 loc_Exact).
Proof.
  unfold represents, frac_loc. cbn [shr_record_of_loc shr_m loc_of_shr_record].
  rewrite Z.pow_0_r, Z.div_1_r, Z.mod_1_r. split; reflexivity.
Qed.

Lemma represents_step (m0 k : Z) (rec : shr_record) :
  0 <= m0 -> 0 <= k ->
  represents m0 k rec -> represents m0 (k + 1) (shr_1 rec).
Proof.
  intros Hm0 Hk [Hm Hloc]. destruct rec as [m r s]. cbn [shr_m] in Hm.
  assert (Hp : 0 < 2 ^ k) by (apply Z.pow_pos_nonneg; lia).
  assert (Hmn : 0 <= m) by (subst m; apply Z.div_pos; lia).
  rewrite (shr_1_nonneg m r s Hmn).
  assert (Hpow : 2 ^ (k + 1) = 2 ^ k * 2) by (rewrite Z.pow_add_r by lia; reflexivity).
  pose proof (Z.div_mod m0 (2 ^ k) ltac:(lia)) as Hdm.
  pose proof (Z.mod_pos_bound m0 (2 ^ k) Hp) as Hrem.
  pose proof (Z.div_mod m 2 ltac:(lia)) as Hdm2.
  pose proof (Z.mod_pos_bound m 2 ltac:(lia)) as Hrem2.
  assert (Hq : m0 / 2 ^ (k + 1) = m / 2).
  { rewrite Hpow, <- Z.div_div by lia. rewrite <- Hm. reflexivity. }
  assert (Hr : m0 mod 2 ^ (k + 1) = (m mod 2) * 2 ^ k + m0 mod 2 ^ k).
  { symmetry. apply Z.mod_unique with (q := m / 2); [left; nia|]. rewrite Hpow. nia. }
  split; [cbn [shr_m]; symmetry; exact Hq|].
  unfold frac_loc in *. rewrite Hr, Hpow.
  assert (Hodd : Z.odd m = (m mod 2 =? 1)).
  { rewrite Zmod_odd. destruct (Z.odd m); reflexivity. }
  rewrite Hodd.
  assert (Hcase : m mod 2 = 0 \/ m mod 2 = 1) by lia.
  set (rem := m0 mod 2 ^ k) in *.
  destruct (rem =? 0) eqn:Hz.
  - apply Z.eqb_eq in Hz.
    assert (Hrs : r || s = false).
    { destruct r, s; cbn [loc_of_shr_record] in Hloc; try discriminate Hloc; reflexivity. }
    rewrite Hrs, Hz.
    destruct Hcase as [-> | ->].
    + replace (0 * 2 ^ k + 0 =? 0) with true by (symmetry; apply Z.eqb_eq; lia).
      reflexivity.
    + replace (1 * 2 ^ k + 0 =? 0) with false by (symmetry; apply Z.eqb_neq; lia).
      replace (2 * (1 * 2 ^ k + 0) ?= 2 ^ k * 2) with Eq
        by (symmetry; apply Z.compare_eq_iff; lia).
      reflexivity.
  - apply Z.eqb_neq in Hz.
    assert (Hrs : r || s = true).
    { destruct r, s; cbn [loc_of_shr_record] in Hloc; try discriminate Hloc; reflexivity. }
    rewrite Hrs.
    replace (m mod 2 * 2 ^ k + rem =? 0) with false
      by (symmetry; apply Z.eqb_neq; nia).
    destruct Hcase as [Hc | Hc]; rewrite Hc.
    + replace (2 * (0 * 2 ^ k + rem) ?= 2 ^ k * 2) with Lt
        by (symmetry; apply Z.compare_lt_iff; lia).
      reflexivity.
    + replace (2 * (1 * 2 ^ k + rem) ?= 2 ^ k * 2) with Gt
        by (symmetry; apply Z.compare_gt_iff; lia).
      reflexivity.
Qed.

Lemma iter_pos_invariant {A : Type} (f : A -> A) (P : Z -> A -> Prop) :
  (forall k x, 0 <= k -> P k x -> P (k + 1) (f x)) ->
  forall (p : positive) (k : Z) (x : A), 0 <= k -> P k x -> P (k + Zpos p) (iter_pos f p x).
Proof.
  intros Hstep. induction p as [p IH|p IH|]; intros k x Hk Hx; cbn [iter_pos].
  - replace (k + Zpos p~1) with ((k + 1 + Zpos p) + Zpos p) by lia.
    apply IH; [lia|]. apply IH; [lia|]. apply Hstep; assumption.
  - replace (k + Zpos p~0) with ((k + Zpos p) + Zpos p) by lia.
    apply IH; [lia|]. apply IH; assumption.
  - apply Hstep; assumption.
Qed.

Lemma represents_shr (m0 e n : Z) :
  0 <= m0 -> 0 <= n ->
  represents m0 n (fst (shr (shr_record_of_loc m0 loc_Exact) e n))
  /\ snd (shr (shr_record_of_loc m0 loc_Exact) e n) = e + n.
Proof.
  intros Hm0 Hn. destruct n as [|p|p]; [| |lia].
  - cbn [shr fst snd]. split; [apply represents_0 | lia].
  - cbn [shr fst snd]. split; [|reflexivity].
    change (Zpos p) with (0 + Zpos p).
    apply (iter_pos_invariant shr_1 (represents m0)); [|lia|apply represents_0].
    intros k x Hk. apply represents_step; assumption.
Qed.

Lemma round_represented (m0 k : Z) (rec : shr_record) :
  0 <= k -> represents m0 k rec ->
  round_nearest_even (shr_m rec) (loc_of_shr_record rec) = rdiv m0 (2 ^ k).
Proof.
  intros Hk [Hm Hloc].
  assert (Hp : 0 < 2 ^ k) by (apply Z.pow_pos_nonneg; lia).
  rewrite (rdiv_spec m0 (2 ^ k) Hp), Hloc, Hm. unfold frac_loc.
  destruct (m0 mod 2 ^ k =? 0) eqn:Hz.
  - apply Z.eqb_eq in Hz. rewrite Hz. cbn [round_nearest_even].
    replace (2 * 0 ?= 2 ^ k) with Lt by (symmetry; apply Z.compare_lt_iff; lia).
    reflexivity.
  - cbn [round_nearest_even]. destruct (2 * (m0 mod 2 ^ k) ?= 2 ^ k); reflexivity.
Qed.

(** ** The number of digits of a mantissa *)

Lemma Zdigits2_bounds (a : Z) : 0 < a -> 2 ^ (Zdigits2 a - 1) <= a < 2 ^ Zdigits2 a.
Proof.
  destruct a as [|p|p]; try lia. intros _. cbn [Zdigits2].
  split; [apply digits2_pos_lower | apply digits2_pos_upper].
Qed.

Lemma Zdigits2_pos (a : Z) : 0 < a -> 0 < Zdigits2 a.
Proof. destruct a as [|p|p]; try lia. intros _. cbn [Zdigits2]. lia. Qed.

Lemma Zdigits2_unique (a k : Z) : 2 ^ (k - 1) <= a < 2 ^ k -> 0 < a -> Zdigits2 a = k.
Proof.
  intros [Hlo Hhi] Ha. pose proof (Zdigits2_bounds a Ha) as [Hl Hh].
  pose proof (Zdigits2_pos a Ha) as Hd.
  assert (Hk : 0 < k).
  { destruct (Z_lt_le_dec 0 k) as [|Hk]; [assumption|].
    destruct (Z.eq_dec k 0) as [->|Hne]; [cbn in Hhi; lia|].
    rewrite (Z.pow_neg_r 2 k) in Hhi by lia. lia. }
  destruct (Z.lt_trichotomy (Zdigits2 a) k) as [Hlt|[Heq|Hgt]]; [|exact Heq|].
  - assert (2 ^ Zdigits2 a <= 2 ^ (k - 1)) by (apply Z.pow_le_mono_r; lia). lia.
  - assert (2 ^ k <= 2 ^ (Zdigits2 a - 1)) by (apply Z.pow_le_mono_r; lia). lia.
Qed.

Lemma Zdigits2_shift (a j : Z) : 0 < a -> 0 <= j -> Zdigits2 (a * 2 ^ j) = Zdigits2 a + j.
Proof.
  intros Ha Hj. pose proof (Zdigits2_bounds a Ha) as [Hl Hh].
  pose proof (Zdigits2_pos a Ha) as Hd.
  assert (Hp : 0 < 2 ^ j) by (apply Z.pow_pos_nonneg; lia).
  apply Zdigits2_unique; [|nia].
  replace (Zdigits2 a + j - 1) with ((Zdigits2 a - 1) + j) by lia.
  rewrite !Z.pow_add_r by lia. split; nia.
Qed.

Lemma Zdigits2_mono (a b : Z) : 0 < a -> a <= b -> Zdigits2 a <= Zdigits2 b.
Proof.
  intros Ha Hab. pose proof (Zdigits2_bounds a Ha) as [Hl _].
  pose proof (Zdigits2_bounds b ltac:(lia)) as [_ Hh].
  destruct (Z_le_gt_dec (Zdigits2 a) (Zdigits2 b)) as [|Hgt]; [assumption|].
  assert (2 ^ Zdigits2 b <= 2 ^ (Zdigits2 a - 1)) by (apply Z.pow_le_mono_r; lia). lia.
Qed.

(** ** Rounding to the format *)

Lemma fexp64_eq (z : Z) : fexp64 z = Z.max (z - 53) (-1074).
Proof. reflexivity. Qed.

Lemma binary_round_aux_units (s : Z) (m : positive) (e : Z) :
  s <= -1074 -> s <= e -> Zpos (digits2_pos m) + e <= 971 ->
  fin s (binary_round_aux prec emax false (Zpos m) e loc_Exact)
  /\ units s (binary_round_aux prec emax false (Zpos m) e loc_Exact)
     = rho s (Zpos m * 2 ^ (e - s)).
Proof.
  intros Hs He Hsmall.
  assert (Hc : 0 < 2 ^ (e - s)) by (apply Z.pow_pos_nonneg; lia).
  unfold rho. rewrite Zdigits2_shift by lia. cbn [Zdigits2].
  replace (Zpos (digits2_pos m) + (e - s) + s) with (Zpos (digits2_pos m) + e) by lia.
  unfold binary_round_aux, shr_fexp. cbn [Zdigits2].
  set (t := fexp64 (Zpos (digits2_pos m) + e)).
  assert (Ht : t = Z.max (Zpos (digits2_pos m) + e - 53) (-1074)) by reflexivity.
  pose proof (digits2_pos_upper m) as Hup.
  destruct (Z_le_gt_dec (t - e) 0) as [Hn|Hn].
  - (* no shift: the mantissa is kept *)
    assert (Hshr : forall rec, shr rec e (t - e) = (rec, e)).
    { intros rec. unfold shr. destruct (t - e) as [|p|p]; try reflexivity; lia. }
    rewrite Hshr. cbn [shr_record_of_loc shr_m loc_of_shr_record round_nearest_even Zdigits2].
    fold t. rewrite Hshr. cbn [shr_m].
    replace (e <=? emax - prec) with true by (symmetry; apply Z.leb_le; unfold emax, prec; lia).
    split; [exact He|]. cbn [units].
    replace (Zpos m * 2 ^ (e - s)) with ((Zpos m * 2 ^ (e - t)) * 2 ^ (t - s)).
    + rewrite rdiv_exact by (apply Z.pow_pos_nonneg; lia). reflexivity.
    + rewrite <- Z.mul_assoc, <- Z.pow_add_r by lia. do 2 f_equal. lia.
  - (* a shift by [t - e] digits *)
    pose proof (represents_shr (Zpos m) e (t - e) ltac:(lia) ltac:(lia)) as [Hrep Hexp].
    destruct (shr (shr_record_of_loc (Zpos m) loc_Exact) e (t - e)) as [mrs' e'] eqn:Hshr.
    cbn [fst snd] in Hrep, Hexp. subst e'.
    rewrite (round_represented (Zpos m) (t - e) mrs' ltac:(lia) Hrep).
    replace (e + (t - e)) with t by lia.
    set (M := rdiv (Zpos m) (2 ^ (t - e))).
    assert (Hn2 : 0 < 2 ^ (t - e)) by (apply Z.pow_pos_nonneg; lia).
    assert (HM0 : 0 <= M) by (apply rdiv_nonneg; lia).
    assert (HM : M <= 2 ^ 53).
    { unfold M. rewrite <- (rdiv_exact (2 ^ 53) (2 ^ (t - e))) by lia.
      apply rdiv_mono; [lia|]. rewrite <- Z.pow_add_r by lia.
      apply Z.lt_le_incl. eapply Z.lt_le_trans; [exact Hup|].
      apply Z.pow_le_mono_r; lia. }
    assert (Hrho : rdiv (Zpos m * 2 ^ (e - s)) (2 ^ (t - s)) = M).
    { replace (2 ^ (t - s)) with (2 ^ (t - e) * 2 ^ (e - s))
        by (rewrite <- Z.pow_add_r by lia; f_equal; lia).
      apply rdiv_scale; lia. }
    rewrite Hrho.
    destruct (Z.eq_dec M (2 ^ 53)) as [Hcarry|Hnc].
    + (* the rounding carried into a new digit *)
      rewrite Hcarry. change (Zdigits2 (2 ^ 53)) with 54.
      replace (fexp64 (54 + t) - t) with 1 by (rewrite fexp64_eq; lia).
      change (shr (shr_record_of_loc (2 ^ 53) loc_Exact) t 1)
        with (Build_shr_record (Zpos (2 ^ 52)) false false, t + 1).
      cbn [shr_m].
      replace (t + 1 <=? emax - prec) with true
        by (symmetry; apply Z.leb_le; unfold emax, prec; lia).
      split; [cbn [fin]; lia|]. cbn [units].
      replace (t + 1 - s) with (1 + (t - s)) by lia.
      rewrite Z.pow_add_r by lia.
      change (Zpos (2 ^ 52)) with (2 ^ 52). change (2 ^ 53) with (2 ^ 52 * 2 ^ 1). ring.
    + assert (Hshr2 : forall rec, shr rec t (fexp64 (Zdigits2 M + t) - t) = (rec, t)).
      { intros rec. unfold shr.
        assert (Hd : Zdigits2 M <= 53).
        { destruct (Z.eq_dec M 0) as [->|HM1]; [cbn; lia|].
          destruct (Z_le_gt_dec (Zdigits2 M) 53) as [|Hgt]; [assumption|].
          pose proof (Zdigits2_bounds M ltac:(lia)) as [Hl _].
          assert (2 ^ 53 <= 2 ^ (Zdigits2 M - 1)) by (apply Z.pow_le_mono_r; lia). lia. }
        rewrite fexp64_eq.
        destruct (Z.max (Zdigits2 M + t - 53) (-1074) - t) as [|p|p] eqn:Hz;
          try reflexivity; lia. }
      rewrite Hshr2. cbn [shr_record_of_loc shr_m].
      destruct M as [|pM|pM]; [split; [exact I | reflexivity]| |lia].
      replace (t <=? emax - prec) with true
        by (symmetry; apply Z.leb_le; unfold emax, prec; lia).
      split; [cbn [fin]; lia | reflexivity].
Qed.

(** ** Rounding to the format keeps the order *)

Lemma rho_0 (s : Z) : rho s 0 = 0.
Proof. unfold rho, rdiv. reflexivity. Qed.

Lemma rho_nonneg (s a : Z) : s <= -1074 -> 0 <= a -> 0 <= rho s a.
Proof.
  intros Hs Ha. unfold rho. rewrite fexp64_eq.
  assert (Hp : 0 < 2 ^ (Z.max (Zdigits2 a + s - 53) (-1074) - s))
    by (apply Z.pow_pos_nonneg; lia).
  pose proof (rdiv_nonneg a _ Hp Ha). nia.
Qed.

(** A power of two the format holds is a bound that rounding respects. *)
Lemma rho_le_pow (s a j : Z) :
  s <= -1074 -> 0 <= a -> a <= 2 ^ j -> fexp64 (Zdigits2 a + s) - s <= j ->
  rho s a <= 2 ^ j.
Proof.
  intros Hs Ha Haj Hj. unfold rho. set (t := fexp64 (Zdigits2 a + s)) in *.
  assert (Ht : -1074 <= t) by (unfold t; rewrite fexp64_eq; lia).
  assert (Hp : 0 < 2 ^ (t - s)) by (apply Z.pow_pos_nonneg; lia).
  assert (Hsplit : 2 ^ j = 2 ^ (j - (t - s)) * 2 ^ (t - s))
    by (rewrite <- Z.pow_add_r by lia; f_equal; lia).
  rewrite Hsplit in *.
  pose proof (rdiv_mono a _ _ Hp Haj) as Hm. rewrite rdiv_exact in Hm by exact Hp.
  nia.
Qed.

Lemma rho_ge_pow (s a j : Z) :
  s <= -1074 -> 2 ^ j <= a -> fexp64 (Zdigits2 a + s) - s <= j ->
  2 ^ j <= rho s a.
Proof.
  intros Hs Haj Hj. unfold rho. set (t := fexp64 (Zdigits2 a + s)) in *.
  assert (Ht : -1074 <= t) by (unfold t; rewrite fexp64_eq; lia).
  assert (Hp : 0 < 2 ^ (t - s)) by (apply Z.pow_pos_nonneg; lia).
  assert (Hsplit : 2 ^ j = 2 ^ (j - (t - s)) * 2 ^ (t - s))
    by (rewrite <- Z.pow_add_r by lia; f_equal; lia).
  rewrite Hsplit in *.
  pose proof (rdiv_mono _ a _ Hp Haj) as Hm. rewrite rdiv_exact in Hm by exact Hp.
  nia.
Qed.

Lemma rho_mono (s a b : Z) : s <= -1074 -> 0 <= a -> a <= b -> rho s a <= rho s b.
Proof.
  intros Hs Ha Hab.
  destruct (Z.eq_dec a 0) as [->|Ha0].
  { rewrite rho_0. apply rho_nonneg; lia. }
  pose proof (Zdigits2_mono a b ltac:(lia) Hab) as Hd.
  pose proof (Zdigits2_bounds a ltac:(lia)) as [Hal Hah].
  pose proof (Zdigits2_bounds b ltac:(lia)) as [Hbl Hbh].
  pose proof (Zdigits2_pos a ltac:(lia)) as Hda.
  destruct (Z.eq_dec (fexp64 (Zdigits2 a + s)) (fexp64 (Zdigits2 b + s))) as [Heq|Hne].
  - unfold rho. rewrite <- Heq. set (t := fexp64 (Zdigits2 a + s)).
    assert (Ht : -1074 <= t) by (unfold t; rewrite fexp64_eq; lia).
    assert (Hp : 0 < 2 ^ (t - s)) by (apply Z.pow_pos_nonneg; lia).
    pose proof (rdiv_mono a b _ Hp Hab). nia.
  - rewrite !fexp64_eq in Hne.
    set (j := Z.max (Zdigits2 a) (fexp64 (Zdigits2 a + s) - s)).
    apply Z.le_trans with (2 ^ j).
    + apply rho_le_pow; [lia | lia | | unfold j; lia].
      apply Z.le_trans with (2 ^ Zdigits2 a); [lia|].
      apply Z.pow_le_mono_r; unfold j; lia.
    + apply Z.le_trans with (2 ^ (Zdigits2 b - 1)).
      * apply Z.pow_le_mono_r; [lia|]. unfold j. rewrite fexp64_eq. lia.
      * apply rho_ge_pow; [lia | lia | rewrite fexp64_eq; lia].
Qed.

(** A value the format holds is its own rounding. *)
Lemma rho_exact (s m e : Z) :
  s <= -1074 -> s <= e -> 0 <= m ->
  fexp64 (Zdigits2 m + e) <= e ->
  rho s (m * 2 ^ (e - s)) = m * 2 ^ (e - s).
Proof.
  intros Hs He Hm Hf.
  destruct (Z.eq_dec m 0) as [->|Hm0]; [rewrite Z.mul_0_l; apply rho_0|].
  unfold rho. rewrite Zdigits2_shift by lia.
  replace (Zdigits2 m + (e - s) + s) with (Zdigits2 m + e) by lia.
  set (t := fexp64 (Zdigits2 m + e)) in *.
  assert (Ht : -1074 <= t) by (unfold t; rewrite fexp64_eq; lia).
  replace (m * 2 ^ (e - s)) with ((m * 2 ^ (e - t)) * 2 ^ (t - s)).
  - rewrite rdiv_exact by (apply Z.pow_pos_nonneg; lia). reflexivity.
  - rewrite <- Z.mul_assoc, <- Z.pow_add_r by lia. do 2 f_equal. lia.
Qed.

(** ** The operations on floats that are not below zero *)

Lemma Zdigits2_le (a k : Z) : 0 < a -> a < 2 ^ k -> Zdigits2 a <= k.
Proof.
  intros Ha Hk. pose proof (Zdigits2_bounds a Ha) as [Hl _].
  destruct (Z_le_gt_dec (Zdigits2 a) k) as [|Hgt]; [assumption|].
  assert (2 ^ k <= 2 ^ (Zdigits2 a - 1)).
  { destruct (Z_lt_le_dec k 0) as [Hneg|Hpos].
    - rewrite (Z.pow_neg_r 2 k Hneg). apply Z.pow_nonneg. lia.
    - apply Z.pow_le_mono_r; lia. }
  lia.
Qed.

Lemma bounded_canonical (m : positive) (e : Z) :
  bounded prec emax m e = true ->
  -1074 <= e /\ fexp64 (Zpos (digits2_pos m) + e) = e.
Proof.
  unfold bounded, canonical_mantissa. intros Hb.
  apply andb_prop in Hb as [Hc _]. apply Z.eqb_eq in Hc.
  split; [|exact Hc]. rewrite fexp64_eq in Hc. lia.
Qed.

Lemma vfin_fin (s : Z) (r : spec_float) : s <= -1074 -> vfin r -> fin s r.
Proof.
  intros Hs. destruct r as [sg|sg| |[|] m e]; cbn [vfin fin]; try tauto.
  intros Hb. apply bounded_canonical in Hb as [He _]. lia.
Qed.

Lemma fin_vfin (s : Z) (r : spec_float) : valid_binary r = true -> fin s r -> vfin r.
Proof.
  destruct r as [sg|sg| |[|] m e]; cbn [vfin fin valid_binary]; tauto.
Qed.

Lemma units_nonneg (s : Z) (r : spec_float) : 0 <= units s r.
Proof.
  destruct r as [sg|sg| |sg m e]; cbn [units]; try lia.
  all: apply Z.mul_nonneg_nonneg; [lia | apply Z.pow_nonneg; lia].
Qed.

Lemma units_exact (s : Z) (r : spec_float) :
  s <= -1074 -> vfin r -> rho s (units s r) = units s r.
Proof.
  intros Hs. destruct r as [sg|sg| |[|] m e]; cbn [vfin units]; try tauto;
    try (intros _; apply rho_0).
  intros Hb. apply bounded_canonical in Hb as [He Hc].
  apply rho_exact; cbn [Zdigits2]; lia.
Qed.

Lemma binary_normalize_units (s m e : Z) :
  s <= -1074 -> s <= e -> 0 <= m -> m * 2 ^ (e - s) < 2 ^ (971 - s) ->
  fin s (binary_normalize prec emax m e false)
  /\ units s (binary_normalize prec emax m e false) = rho s (m * 2 ^ (e - s)).
Proof.
  intros Hs He Hm Hsmall.
  destruct m as [|p|p]; [| |lia].
  - cbn [binary_normalize]. rewrite Z.mul_0_l, rho_0. split; [exact I | reflexivity].
  - cbn [binary_normalize]. unfold binary_round.
    set (t := fexp64 (Zpos (digits2_pos p) + e)).
    assert (Ht : -1074 <= t) by (unfold t; rewrite fexp64_eq; lia).
    assert (Hdig : Zpos (digits2_pos p) + e <= 971).
    { assert (Hpow : 0 < 2 ^ (e - s)) by (apply Z.pow_pos_nonneg; lia).
      assert (Hprod : 0 < Zpos p * 2 ^ (e - s)) by nia.
      pose proof (Zdigits2_le (Zpos p * 2 ^ (e - s)) (971 - s) Hprod Hsmall) as Hd.
      rewrite Zdigits2_shift in Hd by lia. cbn [Zdigits2] in Hd. lia. }
    unfold shl_align. destruct (t - e) as [|d|d] eqn:Hd.
    + apply binary_round_aux_units; assumption.
    + apply binary_round_aux_units; assumption.
    + assert (Hshift : Zpos (Pos.iter xO p d) = Zpos p * 2 ^ (e - t)).
      { rewrite iter_xO. do 2 f_equal. lia. }
      assert (Hval : Zpos (Pos.iter xO p d) * 2 ^ (t - s) = Zpos p * 2 ^ (e - s)).
      { rewrite Hshift, <- Z.mul_assoc, <- Z.pow_add_r by lia. do 2 f_equal. lia. }
      rewrite <- Hval. apply binary_round_aux_units; [lia | lia |].
      change (Zpos (digits2_pos (Pos.iter xO p d))) with (Zdigits2 (Zpos (Pos.iter xO p d))).
      rewrite Hshift, Zdigits2_shift by lia. cbn [Zdigits2]. lia.
Qed.

Lemma aligned_units (s : Z) (m : positive) (e ez : Z) :
  s <= ez -> ez <= e ->
  Zpos (fst (shl_align m e ez)) * 2 ^ (ez - s) = Zpos m * 2 ^ (e - s).
Proof.
  intros Hs He. rewrite shl_align_fst by exact He.
  rewrite <- Z.mul_assoc, <- Z.pow_add_r by lia. do 2 f_equal. lia.
Qed.

Lemma SFadd_units (s : Z) (x y : spec_float) :
  s <= -1074 -> vfin x -> vfin y ->
  units s x + units s y < 2 ^ (971 - s) ->
  fin s (SF64add x y)
  /\ units s (SF64add x y) = rho s (units s x + units s y).
Proof.
  intros Hs Hx Hy Hsmall.
  destruct x as [sx|sx| |[|] mx ex]; cbn [vfin] in Hx; try tauto;
  destruct y as [sy|sy| |[|] my ey]; cbn [vfin] in Hy; try tauto.
  - cbn [units]. rewrite rho_0. destruct sx, sy; split; cbn; trivial.
  - change (SF64add (S754_zero sx) (S754_finite false my ey))
      with (S754_finite false my ey).
    rewrite Z.add_0_l. rewrite units_exact by assumption.
    split; [apply vfin_fin; assumption | reflexivity].
  - change (SF64add (S754_finite false mx ex) (S754_zero sy))
      with (S754_finite false mx ex).
    rewrite Z.add_0_r. rewrite units_exact by assumption.
    split; [apply vfin_fin; assumption | reflexivity].
  - apply bounded_canonical in Hx as [Hex _]. apply bounded_canonical in Hy as [Hey _].
    unfold SF64add, SFadd. cbn [cond_Zopp units] in *.
    set (ez := Z.min ex ey).
    assert (Hval : (Zpos (fst (shl_align mx ex ez)) + Zpos (fst (shl_align my ey ez)))
                   * 2 ^ (ez - s)
                   = Zpos mx * 2 ^ (ex - s) + Zpos my * 2 ^ (ey - s)).
    { rewrite Z.mul_add_distr_r, !aligned_units by (unfold ez; lia). reflexivity. }
    rewrite <- Hval. apply binary_normalize_units; [lia | unfold ez; lia | lia |].
    rewrite Hval. exact Hsmall.
Qed.

Lemma SFsub_units (s : Z) (x y : spec_float) :
  s <= -1074 -> vfin x -> vfin y ->
  units s y <= units s x ->
  units s x < 2 ^ (971 - s) ->
  fin s (SF64sub x y)
  /\ units s (SF64sub x y) = rho s (units s x - units s y).
Proof.
  intros Hs Hx Hy Hle Hsmall.
  destruct x as [sx|sx| |[|] mx ex]; cbn [vfin] in Hx; try tauto;
  destruct y as [sy|sy| |[|] my ey]; cbn [vfin] in Hy; try tauto.
  - cbn [units]. rewrite rho_0. destruct sx, sy; split; cbn; trivial.
  - exfalso. cbn [units] in Hle.
    assert (0 < 2 ^ (ey - s)).
    { apply bounded_canonical in Hy as [Hey _]. apply Z.pow_pos_nonneg; lia. }
    nia.
  - change (SF64sub (S754_finite false mx ex) (S754_zero sy))
      with (S754_finite false mx ex).
    change (units s (S754_zero sy)) with 0. rewrite Z.sub_0_r.
    rewrite units_exact by assumption.
    split; [apply vfin_fin; assumption | reflexivity].
  - apply bounded_canonical in Hx as [Hex _]. apply bounded_canonical in Hy as [Hey _].
    unfold SF64sub, SFsub. cbn [cond_Zopp units] in *.
    set (ez := Z.min ex ey).
    assert (Hpow : 0 < 2 ^ (ez - s)) by (apply Z.pow_pos_nonneg; unfold ez; lia).
    assert (Hval : (Zpos (fst (shl_align mx ex ez)) - Zpos (fst (shl_align my ey ez)))
                   * 2 ^ (ez - s)
                   = Zpos mx * 2 ^ (ex - s) - Zpos my * 2 ^ (ey - s)).
    { rewrite Z.mul_sub_distr_r, !aligned_units by (unfold ez; lia). reflexivity. }
    assert (Hey' : 0 < 2 ^ (ey - s)) by (apply Z.pow_pos_nonneg; lia).
    rewrite <- Hval. apply binary_normalize_units; [lia | unfold ez; lia | nia |].
    rewrite Hval. nia.
Qed.

Lemma SFmul_units (s : Z) (x y : spec_float) :
  s <= -1074 -> vfin x -> vfin y ->
  units s x * units s y < 2 ^ (971 - 2 * s) ->
  fin (2 * s) (SF64mul x y)
  /\ units (2 * s) (SF64mul x y) = rho (2 * s) (units s x * units s y).
Proof.
  intros Hs Hx Hy Hsmall.
  destruct x as [sx|sx| |[|] mx ex]; cbn [vfin] in Hx; try tauto;
  destruct y as [sy|sy| |[|] my ey]; cbn [vfin] in Hy; try tauto;
    cbn [units]; rewrite ?Z.mul_0_l, ?Z.mul_0_r, ?rho_0;
    try (split; [exact I | reflexivity]).
  apply bounded_canonical in Hx as [Hex _]. apply bounded_canonical in Hy as [Hey _].
  unfold SF64mul, SFmul. cbn [xorb units] in *.
  assert (Hval : Zpos (mx * my) * 2 ^ (ex + ey - 2 * s)
                 = Zpos mx * 2 ^ (ex - s) * (Zpos my * 2 ^ (ey - s))).
  { rewrite Pos2Z.inj_mul.
    replace (ex + ey - 2 * s) with ((ex - s) + (ey - s)) by lia.
    rewrite Z.pow_add_r by lia. ring. }
  rewrite <- Hval.
  apply binary_round_aux_units; [lia | lia |].
  rewrite <- Hval in Hsmall.
  assert (Hpow : 0 < 2 ^ (ex + ey - 2 * s)) by (apply Z.pow_pos_nonneg; lia).
  assert (Hprod : 0 < Z.pos (mx * my) * 2 ^ (ex + ey - 2 * s)) by nia.
  pose proof (Zdigits2_le _ (971 - 2 * s) Hprod Hsmall) as Hd.
  rewrite Zdigits2_shift in Hd by lia. cbn [Zdigits2] in Hd. lia.
Qed.

Lemma rho_bound (s a j : Z) :
  s <= -1074 -> 0 <= a -> a <= 2 ^ j -> -1074 - s <= j -> rho s a <= 2 ^ j.
Proof.
  intros Hs Ha Haj Hj.
  pose proof (rho_mono s a (2 ^ j) Hs Ha Haj) as Hm.
  pose proof (rho_exact s 1 (j + s) Hs ltac:(lia) ltac:(lia)) as He.
  replace (j + s - s) with j in He by lia. rewrite Z.mul_1_l in He.
  rewrite He in Hm; [exact Hm|].
  rewrite fexp64_eq. change (Zdigits2 1) with 1. lia.
Qed.

Lemma SFleb_units (s : Z) (a b : spec_float) :
  s <= -1074 -> vfin a -> vfin b -> SFleb a b = true -> units s a <= units s b.
Proof.
  intros Hs Ha Hb.
  destruct a as [sa|sa| |[|] m1 e1]; cbn [vfin] in Ha; try tauto;
  destruct b as [sb|sb| |[|] m2 e2]; cbn [vfin] in Hb; try tauto.
  - intros _. cbn [units]. lia.
  - intros _. apply units_nonneg.
  - unfold SFleb. cbn. discriminate.
  - pose proof (bounded_canonical _ _ Ha) as [He1 _].
    pose proof (bounded_canonical _ _ Hb) as [He2 _].
    unfold SFleb. cbn [SFcompare units].
    destruct (Z.compare_spec e1 e2) as [Heq|Hlt|Hgt].
    + subst e2. change (Pos.compare_cont Eq m1 m2) with (Pos.compare m1 m2).
      destruct (Pos.compare_spec m1 m2) as [Hm|Hm|Hm]; try discriminate; intros _.
      * subst. lia.
      * apply Z.mul_le_mono_nonneg_r; [apply Z.pow_nonneg; lia | lia].
    + intros _. pose proof (aligned_above m1 e1 m2 e2 Ha Hb Hlt) as Hal.
      rewrite Z.sub_diag, Z.pow_0_r, Z.mul_1_r in Hal.
      replace (e2 - s) with ((e2 - e1) + (e1 - s)) by lia.
      rewrite Z.pow_add_r by lia.
      assert (0 < 2 ^ (e1 - s)) by (apply Z.pow_pos_nonneg; lia).
      nia.
    + discriminate.
Qed.

Lemma between_vfin (lo x hi : spec_float) :
  vfin lo -> vfin hi -> valid_binary x = true ->
  SFleb lo x = true -> SFleb x hi = true -> vfin x.
Proof.
  intros Hlo Hhi Hv.
  destruct lo as [sl|sl| |[|] ml el]; cbn [vfin] in Hlo; try tauto;
  destruct hi as [sh|sh| |[|] mh eh]; cbn [vfin] in Hhi; try tauto;
  destruct x as [sx|[|]| |[|] mx ex]; cbn [vfin valid_binary] in *;
    unfold SFleb; cbn; try tauto; try discriminate; intros; discriminate.
Qed.

Lemma units_rescale (s s' : Z) (r : spec_float) :
  s' <= s -> fin s r -> units s' r = units s r * 2 ^ (s - s').
Proof.
  intros Hs. destruct r as [sg|sg| |[|] m e]; cbn [fin units]; try tauto; try lia.
  intros He. rewrite <- Z.mul_assoc, <- Z.pow_add_r by lia. do 2 f_equal. lia.
Qed.

(** ** The operations on primitive floats *)

Lemma sub_float_units (x y : float) :
  vfin (Prim2SF x) -> vfin (Prim2SF y) ->
  u64 y <= u64 x -> u64 x < 2 ^ (971 + 1074) ->
  vfin (Prim2SF (x - y)) /\ u64 (x - y)%float = rho (-1074) (u64 x - u64 y).
Proof.
  intros Hx Hy Hle Hsmall.
  pose proof (SFsub_units (-1074) _ _ ltac:(lia) Hx Hy Hle Hsmall) as [Hf Hu].
  rewrite <- FloatAxioms.sub_spec in Hf, Hu.
  split; [|exact Hu].
  exact (fin_vfin _ _ (Prim2SF_valid _) Hf).
Qed.

Lemma add_float_units (x y : float) :
  vfin (Prim2SF x) -> vfin (Prim2SF y) ->
  u64 x + u64 y < 2 ^ (971 + 1074) ->
  vfin (Prim2SF (x + y)) /\ u64 (x + y)%float = rho (-1074) (u64 x + u64 y).
Proof.
  intros Hx Hy Hsmall.
  pose proof (SFadd_units (-1074) _ _ ltac:(lia) Hx Hy Hsmall) as [Hf Hu].
  rewrite <- FloatAxioms.add_spec in Hf, Hu.
  split; [|exact Hu].
  exact (fin_vfin _ _ (Prim2SF_valid _) Hf).
Qed.

Lemma mul_float_units (x y : float) :
  vfin (Prim2SF x) -> vfin (Prim2SF y) ->
  u64 x * u64 y < 2 ^ (971 + 2148) ->
  vfin (Prim2SF (x * y))
  /\ u64 (x * y)%float = rho (-2148) (u64 x * u64 y) / 2 ^ 1074.
Proof.
  intros Hx Hy Hsmall.
  pose proof (SFmul_units (-1074) _ _ ltac:(lia) Hx Hy Hsmall) as [Hf Hu].
  change (2 * -1074) with (-2148) in Hf, Hu.
  rewrite <- FloatAxioms.mul_spec in Hf, Hu.
  pose proof (fin_vfin _ _ (Prim2SF_valid _) Hf) as Hv.
  split; [exact Hv|].
  rewrite <- Hu.
  rewrite (units_rescale (-1074) (-2148)) by first [lia | apply vfin_fin; [lia | exact Hv]].
  change (-1074 - -2148) with 1074.
  rewrite Z.div_mul; [reflexivity|]. apply Z.pow_nonzero; lia.
Qed.

Lemma interp_units_mono (uK uLO uILO u1 u2 : Z) :
  0 <= uK -> 0 <= uILO -> uLO <= u1 -> u1 <= u2 ->
  interp_units (-1074) uK uLO uILO u1 <= interp_units (-1074) uK uLO uILO u2.
Proof.
  intros HK HI H1 H12. unfold interp_units.
  change (2 * -1074) with (-2148). change (- -1074) with 1074.
  assert (Hd1 : 0 <= rho (-1074) (u1 - uLO)) by (apply rho_nonneg; lia).
  assert (Hd : rho (-1074) (u1 - uLO) <= rho (-1074) (u2 - uLO))
    by (apply rho_mono; lia).
  assert (Hp1 : 0 <= rho (-2148) (uK * rho (-1074) (u1 - uLO)))
    by (apply rho_nonneg; [lia | apply Z.mul_nonneg_nonneg; lia]).
  assert (Hp : rho (-2148) (uK * rho (-1074) (u1 - uLO))
               <= rho (-2148) (uK * rho (-1074) (u2 - uLO))).
  { apply rho_mono; [lia | apply Z.mul_nonneg_nonneg; lia |].
    apply Z.mul_le_mono_nonneg_l; lia. }
  assert (Hpow : 0 < 2 ^ 1074) by (apply Z.pow_pos_nonneg; lia).
  apply rho_mono; [lia | |].
  - pose proof (Z.div_pos _ _ Hp1 Hpow). lia.
  - apply Z.add_le_mono_r. apply Z.div_le_mono; assumption.
Qed.

(** The float [slope * (x - bp_low) + aqi_low], for numbers of the sizes the
    tables hold. *)
Lemma interp_float_units (K LO ILO x : float) :
  vfin (Prim2SF K) -> vfin (Prim2SF LO) -> vfin (Prim2SF ILO) -> vfin (Prim2SF x) ->
  u64 K <= 2 ^ 5 * 2 ^ 1074 -> u64 ILO <= 2 ^ 9 * 2 ^ 1074 ->
  u64 LO <= u64 x -> u64 x <= 2 ^ 9 * 2 ^ 1074 ->
  vfin (Prim2SF (K * (x - LO) + ILO))
  /\ u64 (K * (x - LO) + ILO)%float
     = interp_units (-1074) (u64 K) (u64 LO) (u64 ILO) (u64 x).
Proof.
  intros HK HLO HILO Hx HKb HIb Hle Hxb.
  assert (Hpow : 0 < 2 ^ 1074) by (apply Z.pow_pos_nonneg; lia).
  assert (Hbig : 2 ^ 15 <= 2 ^ 971) by (apply Z.pow_le_mono_r; lia).
  assert (E1 : 2 ^ (971 + 1074) = 2 ^ 971 * 2 ^ 1074) by (apply Z.pow_add_r; lia).
  assert (E2 : 2 ^ (971 + 2148) = 2 ^ 971 * (2 ^ 1074 * 2 ^ 1074)).
  { change (971 + 2148) with (971 + (1074 + 1074)). rewrite !Z.pow_add_r by lia. reflexivity. }
  assert (E3 : 2 ^ (9 + 1074) = 2 ^ 9 * 2 ^ 1074) by (apply Z.pow_add_r; lia).
  assert (E4 : 2 ^ (14 + 2148) = 2 ^ 14 * (2 ^ 1074 * 2 ^ 1074)).
  { change (14 + 2148) with (14 + (1074 + 1074)). rewrite !Z.pow_add_r by lia. reflexivity. }
  pose proof (units_nonneg (-1074) (Prim2SF K)) as HK0.
  pose proof (units_nonneg (-1074) (Prim2SF LO)) as HLO0.
  pose proof (units_nonneg (-1074) (Prim2SF ILO)) as HILO0.
  set (P := 2 ^ 1074) in *. set (B := 2 ^ 971) in *.
  change (2 ^ 15) with 32768 in Hbig. change (2 ^ 5) with 32 in *.
  change (2 ^ 9) with 512 in *. change (2 ^ 14) with 16384 in *.
  (* the difference *)
  destruct (sub_float_units x LO Hx HLO Hle) as [Hd Hdu].
  { fold P. rewrite E1. nia. }
  assert (Hdb : u64 (x - LO)%float <= 512 * P).
  { rewrite Hdu, <- E3. apply rho_bound; [lia | lia | rewrite E3; lia | lia]. }
  assert (Hd0 : 0 <= u64 (x - LO)%float) by apply units_nonneg.
  (* the product *)
  destruct (mul_float_units K (x - LO) HK Hd) as [Hp Hpu].
  { rewrite E2. nia. }
  assert (Hpb : u64 (K * (x - LO))%float <= 16384 * P).
  { rewrite Hpu. fold P.
    assert (Hr : rho (-2148) (u64 K * u64 (x - LO)%float) <= 16384 * (P * P)).
    { rewrite <- E4. apply rho_bound; [lia | nia | rewrite E4; nia | lia]. }
    apply Z.div_le_upper_bound; [lia|]. lia. }
  (* the sum *)
  destruct (add_float_units (K * (x - LO)) ILO Hp HILO) as [Ha Hau].
  { fold P. rewrite E1. nia. }
  split; [exact Ha|].
  rewrite Hau, Hpu, Hdu. reflexivity.
Qed.

(** ** The value of a float in units *)

Lemma value_units (a : float) :
  vfin (Prim2SF a) ->
  exists q, Binary64.value a = Some q
            /\ (q == inject_Z (u64 a) / inject_Z (2 ^ 1074))%Q.
Proof.
  unfold Binary64.value.
  assert (Hpow : 0 < 2 ^ 1074) by (apply Z.pow_pos_nonneg; lia).
  assert (Hq : ~ (inject_Z (2 ^ 1074) == 0)%Q).
  { change 0%Q with (inject_Z 0). rewrite inject_Z_injective. lia. }
  destruct (Prim2SF a) as [sg|sg| |[|] m e]; cbn [vfin units]; try tauto.
  - intros _. eexists. split; [reflexivity|]. change (inject_Z 0) with 0%Q. field. exact Hq.
  - intros Hb. apply bounded_canonical in Hb as [He _].
    eexists. split; [reflexivity|]. cbn [cond_Zopp].
    destruct e as [|p|p].
    + change (0 - -1074) with 1074. rewrite inject_Z_mult. field. exact Hq.
    + replace (Zpos p - -1074) with (Zpos p + 1074) by lia.
      rewrite Z.pow_add_r by lia. rewrite !inject_Z_mult. field. exact Hq.
    + assert (Hsplit : 2 ^ 1074 = 2 ^ (Zneg p - -1074) * 2 ^ Zpos p).
      { rewrite <- Z.pow_add_r by lia. f_equal. lia. }
      assert (Hpp : 0 < 2 ^ Zpos p) by (apply Z.pow_pos_nonneg; lia).
      assert (Hqp : ~ (inject_Z (2 ^ Zpos p) == 0)%Q).
      { change 0%Q with (inject_Z 0). rewrite inject_Z_injective. lia. }
      assert (Hqe : ~ (inject_Z (2 ^ (Zneg p - -1074)) == 0)%Q).
      { change 0%Q with (inject_Z 0). rewrite inject_Z_injective.
        assert (0 < 2 ^ (Zneg p - -1074)) by (apply Z.pow_pos_nonneg; lia). lia. }
      rewrite Qmake_Qdiv. rewrite Pos2Z.inj_pow.
      rewrite Hsplit, !inject_Z_mult. field. split; assumption.
Qed.

Lemma round_float_units (a : float) :
  vfin (Prim2SF a) ->
  Binary64.round a = inr (round_half_even (inject_Z (u64 a) / inject_Z (2 ^ 1074))).
Proof.
  intros Hv. destruct (value_units a Hv) as (q & Hq & Heq).
  unfold Binary64.round. rewrite Hq. cbn. f_equal.
  apply round_half_even_comp. exact Heq.
Qed.

Lemma round_units_mono (u1 u2 : Z) :
  u1 <= u2 ->
  round_half_even (inject_Z u1 / inject_Z (2 ^ 1074))
  <= round_half_even (inject_Z u2 / inject_Z (2 ^ 1074)).
Proof.
  intros Hle. apply round_half_even_mono.
  assert (Hpow : 0 < 2 ^ 1074) by (apply Z.pow_pos_nonneg; lia).
  unfold Qdiv. apply Qmult_le_compat_r.
  - rewrite <- Zle_Qle. exact Hle.
  - apply Qinv_le_0_compat. change 0%Q with (inject_Z 0). rewrite <- Zle_Qle. lia.
Qed.

Ltac check_segment :=
  match goal with
  | |- exists K, checked ?bp K =>
      let r := eval vm_compute in
        (num_truediv (T := float) (int (aqi_high bp) - int (aqi_low bp))%py
                     (literal (bp_high bp) - literal (bp_low bp))%py) in
      match r with
      | inr ?K => exists K
      end
  end;
  constructor;
  repeat match goal with |- _ /\ _ => split end;
  first [ vm_compute; reflexivity
        | vm_compute; exact I
        | apply Z.leb_le; vm_compute; reflexivity ].

Lemma tables_checked (bp : breakpoint) :
  In bp (breakpoints_pm25 ++ breakpoints_co) -> exists K, checked bp K.
Proof.
  intros Hin. cbn [app breakpoints_pm25 breakpoints_co In] in Hin.
  repeat (destruct Hin as [<-|Hin]; [check_segment|]).
  destruct Hin.
Qed.

Lemma leb_float_units (a b : float) :
  vfin (Prim2SF a) -> vfin (Prim2SF b) -> (a <=? b)%float = true -> u64 a <= u64 b.
Proof.
  intros Ha Hb Hle. rewrite FloatAxioms.leb_spec in Hle.
  apply SFleb_units; [lia | assumption..].
Qed.

Lemma in_segment_vfin (bp : breakpoint) (K x : float) :
  checked bp K -> in_segment x bp = true ->
  vfin (Prim2SF x)
  /\ u64 (literal (bp_low bp)) <= u64 x
  /\ u64 x <= u64 (literal (bp_high bp)).
Proof.
  intros Hc Hs. unfold in_segment in Hs. apply andb_prop in Hs as [Hlo Hhi].
  cbn [num_le PyNumber_float] in Hlo, Hhi.
  pose proof (checked_low bp K Hc) as HLO.
  pose proof (checked_high bp K Hc) as [HHI _].
  assert (Hx : vfin (Prim2SF x)).
  { rewrite FloatAxioms.leb_spec in Hlo, Hhi.
    exact (between_vfin _ _ _ HLO HHI (Prim2SF_valid x) Hlo Hhi). }
  split; [exact Hx|].
  split; apply leb_float_units; assumption.
Qed.

(** On floats, within a segment of either table, the calculation raises
    nothing and its index grows with the concentration. *)
Lemma segment_index_mono (bp : breakpoint) (x1 x2 : float) :
  In bp (breakpoints_pm25 ++ breakpoints_co) ->
  in_segment x1 bp = true -> in_segment x2 bp = true ->
  (x1 <=? x2)%py = true ->
  exists i1 i2,
    (aqi <- interpolate x1 bp ;; num_round aqi) = inr i1
    /\ (aqi <- interpolate x2 bp ;; num_round aqi) = inr i2
    /\ i1 <= i2.
Proof.
  intros Hin H1 H2 Hle.
  destruct (tables_checked bp Hin) as [K Hc].
  destruct (in_segment_vfin bp K x1 Hc H1) as (Hv1 & Hl1 & Hh1).
  destruct (in_segment_vfin bp K x2 Hc H2) as (Hv2 & Hl2 & Hh2).
  pose proof (leb_float_units x1 x2 Hv1 Hv2 Hle) as H12.
  destruct Hc as [Hslope [HK HKb] HLO [HHI HHIb] [HI HIb] _ _ _].
  destruct (interp_float_units K _ _ x1 HK HLO HI Hv1 HKb HIb Hl1 ltac:(lia)) as [Ha1 Hu1].
  destruct (interp_float_units K _ _ x2 HK HLO HI Hv2 HKb HIb Hl2 ltac:(lia)) as [Ha2 Hu2].
  unfold interpolate. rewrite Hslope.
  cbn [bind ret Monad_py Monad_either num_round num_mul num_sub num_add PyNumber_float].
  rewrite (round_float_units _ Ha1), (round_float_units _ Ha2).
  eexists _, _. split; [reflexivity|]. split; [reflexivity|].
  apply round_units_mono. rewrite Hu1, Hu2.
  apply interp_units_mono; [apply units_nonneg | apply units_nonneg | assumption..].
Qed.

(** On floats, the index of a concentration that a segment holds lies
    between the two indices the segment declares. *)
Lemma segment_index_bounds (bp : breakpoint) (x : float) :
  In bp (breakpoints_pm25 ++ breakpoints_co) ->
  in_segment x bp = true ->
  exists i, (aqi <- interpolate x bp ;; num_round aqi) = inr i
            /\ aqi_low bp <= i <= aqi_high bp.
Proof.
  intros Hin Hs.
  destruct (tables_checked bp Hin) as [K Hc].
  pose proof (checked_bounds bp K Hc) as (Hll & Hlh & Hhh).
  pose proof (checked_at_low bp K Hc) as Hal.
  pose proof (checked_at_high bp K Hc) as Hah.
  pose proof (checked_slope bp K Hc) as Hslope.
  pose proof Hs as Hs'. unfold in_segment in Hs'. apply andb_prop in Hs' as [Hlo Hhi].
  assert (HsL : in_segment (literal (bp_low bp) : float) bp = true).
  { unfold in_segment. rewrite Hll, Hlh. reflexivity. }
  assert (HsH : in_segment (literal (bp_high bp) : float) bp = true).
  { unfold in_segment. rewrite Hlh, Hhh. reflexivity. }
  destruct (segment_index_mono bp _ x Hin HsL Hs Hlo) as (iL & i & HiL & Hi & HLi).
  destruct (segment_index_mono bp x _ Hin Hs HsH Hhi) as (i' & iH & Hi' & HiH & HiH').
  rewrite Hi in Hi'. injection Hi' as <-.
  unfold interpolate in HiL, HiH. rewrite Hslope in HiL, HiH.
  cbn [bind ret Monad_py Monad_either num_round num_mul num_sub num_add PyNumber_float]
    in HiL, HiH.
  rewrite Hal in HiL. rewrite Hah in HiH.
  injection HiL as <-. injection HiH as <-.
  exists i. split; [exact Hi | lia].
Qed.

(** ** The calculators on floats *)

Lemma scan_of_index {T : Type} `{PyNumber T} (breakpoints : list breakpoint) (x : T)
      (bp : breakpoint) (i : Z) :
  first_match breakpoints x = Some bp ->
  (aqi <- interpolate x bp ;; num_round aqi) = inr i ->
  scan_breakpoints breakpoints x = inr (Some i, category bp, color bp).
Proof.
  intros Hm Hi. rewrite (scan_first_match _ _ _ Hm).
  destruct (interpolate x bp) as [e|a]; cbn [bind ret Monad_py Monad_either] in *;
    [discriminate|].
  rewrite Hi. reflexivity.
Qed.

(** On floats, a scan of one of the two tables raises nothing: it returns
    the out-of-range result when no segment holds the concentration, and
    else an index within the indices of the first segment that holds it. *)
Lemma scan_binary64 (breakpoints : list breakpoint) (x : float) :
  (forall bp, In bp breakpoints -> In bp (breakpoints_pm25 ++ breakpoints_co)) ->
  (first_match breakpoints x = None /\ scan_breakpoints breakpoints x = inr out_of_range)
  \/ exists bp i,
       first_match breakpoints x = Some bp
       /\ scan_breakpoints breakpoints x = inr (Some i, category bp, color bp)
       /\ aqi_low bp <= i <= aqi_high bp.
Proof.
  intros Hsub. destruct (first_match breakpoints x) as [bp|] eqn:Hm.
  - right. pose proof (first_match_in _ _ _ Hm) as [Hin Hs].
    destruct (segment_index_bounds bp x (Hsub _ Hin) Hs) as (i & Hi & Hb).
    exists bp, i. split; [reflexivity|]. split; [|exact Hb].
    exact (scan_of_index _ _ _ _ Hm Hi).
  - left. split; [reflexivity|]. exact (scan_no_match _ _ Hm).
Qed.

Lemma scan_category_band_binary64 (breakpoints : list breakpoint) (x : float)
      (i : Z) (cat col : string) :
  (forall bp, In bp breakpoints -> In bp (breakpoints_pm25 ++ breakpoints_co)) ->
  scan_breakpoints breakpoints x = inr (Some i, cat, col) ->
  cat = category_label (general_band i) /\ col = category_color (general_band i).
Proof.
  intros Hsub Hr.
  destruct (scan_binary64 breakpoints x Hsub) as [[_ Ho]|(bp & j & Hm & Hj & Hb)].
  - rewrite Ho in Hr. discriminate Hr.
  - rewrite Hj in Hr. injection Hr as -> <- <-.
    apply first_match_in in Hm as [Hin _].
    exact (segment_band bp i (Hsub _ Hin) Hb).
Qed.

Lemma leb_float_trans (a b c : float) :
  (a <=? b)%float = true -> (b <=? c)%float = true -> (a <=? c)%float = true.
Proof. rewrite !FloatAxioms.leb_spec. apply SFleb_trans. Qed.

(** C5.  On floats, as the script computes, for two concentrations
    [c1 <= c2] that the PM2.5 table covers: both are within 0 and 500.4, the
    calculator returns a defined index for each (it raises nothing), and the
    index of [c1] is no more than the index of [c2]. *)
Theorem pm25_index_monotone :
  forall c1 c2 : float,
    covered breakpoints_pm25 c1 = true ->
    covered breakpoints_pm25 c2 = true ->
    (c1 <=? c2)%py = true ->
    ((int 0 <=? c1)%py = true /\ (c2 <=? literal 500.4%Q)%py = true)
    /\ exists (i1 i2 : Z) (cat1 col1 cat2 col2 : string),
        calculate_aqi_pm25 c1 = inr (Some i1, cat1, col1)
        /\ calculate_aqi_pm25 c2 = inr (Some i2, cat2, col2)
        /\ i1 <= i2.
Proof.
  intros c1 c2 H1 H2 Hle.
  apply covered_first_match in H1 as [bp1 Hm1].
  apply covered_first_match in H2 as [bp2 Hm2].
  pose proof (first_match_in _ _ _ Hm1) as [Hin1 Hs1].
  pose proof (first_match_in _ _ _ Hm2) as [Hin2 Hs2].
  destruct (segment_index_bounds bp1 c1 (pm25_in_tables _ Hin1) Hs1) as (i1 & Hi1 & Hb1).
  destruct (segment_index_bounds bp2 c2 (pm25_in_tables _ Hin2) Hs2) as (i2 & Hi2 & Hb2).
  assert (Hsame : bp1 = bp2 -> i1 <= i2).
  { intros <-.
    destruct (segment_index_mono bp1 c1 c2 (pm25_in_tables _ Hin1) Hs1 Hs2 Hle)
      as (j1 & j2 & Hj1 & Hj2 & Hj).
    congruence. }
  pose proof Hs1 as Hs1'. pose proof Hs2 as Hs2'.
  unfold in_segment in Hs1', Hs2'.
  apply andb_prop in Hs1' as [Hlo1 Hhi1]. apply andb_prop in Hs2' as [Hlo2 Hhi2].
  cbn [num_le PyNumber_float] in Hlo1, Hhi1, Hlo2, Hhi2, Hle.
  pose proof (leb_float_trans _ _ _ Hlo1 (leb_float_trans _ _ _ Hle Hhi2)) as Hcross.
  split; [split|].
  - cbn [num_le PyNumber_float].
    apply (leb_float_trans _ (literal (bp_low bp1)) _); [|exact Hlo1].
    clear - Hin1. cbn [breakpoints_pm25 In] in Hin1.
    repeat (destruct Hin1 as [<-|Hin1]; [vm_compute; reflexivity|]). destruct Hin1.
  - cbn [num_le PyNumber_float].
    apply (leb_float_trans _ (literal (bp_high bp2)) _); [exact Hhi2|].
    clear - Hin2. cbn [breakpoints_pm25 In] in Hin2.
    repeat (destruct Hin2 as [<-|Hin2]; [vm_compute; reflexivity|]). destruct Hin2.
  - exists i1, i2, (category bp1), (color bp1), (category bp2), (color bp2).
    unfold calculate_aqi_pm25.
    split; [exact (scan_of_index _ _ _ _ Hm1 Hi1)|].
    split; [exact (scan_of_index _ _ _ _ Hm2 Hi2)|].
    clear - Hin1 Hin2 Hb1 Hb2 Hsame Hcross.
    cbn [breakpoints_pm25 In] in Hin1, Hin2.
    repeat (destruct Hin1 as [<-|Hin1]); try contradiction;
    repeat (destruct Hin2 as [<-|Hin2]); try contradiction;
    first [ exact (Hsame eq_refl)
          | cbn [aqi_low aqi_high] in Hb1, Hb2; lia
          | vm_compute in Hcross; discriminate Hcross ].
Qed.

(** The theorem at the PM2.5 concentrations 3.47 and 3.48, where the index on
    floats goes from 14 to 15. *)
Lemma pm25_index_monotone_witness :
  ((int 0 <=? 3.47%float)%py = true /\ (3.48%float <=? literal 500.4%Q)%py = true)
  /\ exists (i1 i2 : Z) (cat1 col1 cat2 col2 : string),
      calculate_aqi_pm25 3.47%float = inr (Some i1, cat1, col1)
      /\ calculate_aqi_pm25 3.48%float = inr (Some i2, cat2, col2)
      /\ i1 <= i2.
Proof.
  apply (pm25_index_monotone 3.47%float 3.48%float); reflexivity.
Defined.

(** X2.  On floats, when a segment is the first one that holds the
    concentration, the calculator returns (it raises nothing) an index
    between the two indices the segment declares, hence between 0 and 500,
    with the category and the colour of the segment. *)
Theorem index_within_segment :
  forall (c : float) (bp : breakpoint),
    (first_match breakpoints_pm25 c = Some bp ->
     exists i, calculate_aqi_pm25 c = inr (Some i, category bp, color bp)
               /\ aqi_low bp <= i <= aqi_high bp /\ 0 <= i <= 500)
    /\ (first_match breakpoints_co c = Some bp ->
        exists i, calculate_aqi_co c = inr (Some i, category bp, color bp)
                  /\ aqi_low bp <= i <= aqi_high bp /\ 0 <= i <= 500).
Proof.
  intros c bp. split; intros Hm.
  - pose proof (first_match_in _ _ _ Hm) as [Hin Hs].
    destruct (segment_index_bounds bp c (pm25_in_tables _ Hin) Hs) as (i & Hi & Hb).
    exists i. split; [exact (scan_of_index _ _ _ _ Hm Hi)|]. split; [exact Hb|].
    cbn [breakpoints_pm25 In] in Hin.
    repeat (destruct Hin as [<-|Hin]; [cbn [aqi_low aqi_high] in Hb; lia|]).
    destruct Hin.
  - pose proof (first_match_in _ _ _ Hm) as [Hin Hs].
    destruct (segment_index_bounds bp c (co_in_tables _ Hin) Hs) as (i & Hi & Hb).
    exists i. split; [exact (scan_of_index _ _ _ _ Hm Hi)|]. split; [exact Hb|].
    cbn [breakpoints_co In] in Hin.
    repeat (destruct Hin as [<-|Hin]; [cbn [aqi_low aqi_high] in Hb; lia|]).
    destruct Hin.
Qed.

(** The theorem at the PM2.5 concentration 20, on floats. *)
Lemma index_within_segment_witness :
  exists i, calculate_aqi_pm25 20%float = inr (Some i, "Moderado", "#FFFF00")
            /\ 51 <= i <= 100 /\ 0 <= i <= 500.
Proof.
  exact (proj1 (index_within_segment 20%float
                  (Breakpoint 12.1%Q 35.4%Q 51 100 "Moderado" "#FFFF00")) eq_refl).
Defined.

(** X3.  On floats, the category and the colour that a calculator returns
    with a defined index are the label and the colour of the band in which
    the general thresholds put that index: the per-pollutant category and
    the index never disagree. *)
Theorem category_is_band_of_index :
  forall (c : float) (i : Z) (cat col : string),
    (calculate_aqi_pm25 c = inr (Some i, cat, col) ->
     cat = category_label (general_band i) /\ col = category_color (general_band i))
    /\ (calculate_aqi_co c = inr (Some i, cat, col) ->
        cat = category_label (general_band i) /\ col = category_color (general_band i)).
Proof.
  intros c i cat col. split.
  - exact (scan_category_band_binary64 _ c i cat col pm25_in_tables).
  - exact (scan_category_band_binary64 _ c i cat col co_in_tables).
Qed.

(** The theorem at the PM2.5 concentration 20, whose index on floats is 68. *)
Lemma category_is_band_of_index_witness :
  "Moderado" = category_label (general_band 68)
  /\ "#FFFF00" = category_color (general_band 68).
Proof.
  exact (proj1 (category_is_band_of_index 20%float 68 "Moderado" "#FFFF00") eq_refl).
Defined.

(** X4.  On floats, when the overall index of a reading is defined, the
    overall category and colour are the category and the colour of a
    pollutant whose index is the overall index: re-classifying the largest
    index gives the category of the worst pollutant. *)
Theorem overall_category_is_worst_pollutant :
  forall (r : reading float) (d : Df.columns) (i : Z),
    derive r = inr d ->
    Df.aqi d = Some i ->
    (Df.aqi_pm25 d = Some i /\ Df.category d = Df.category_pm25 d
     /\ Df.color d = Df.color_pm25 d)
    \/ (Df.aqi_co d = Some i /\ Df.category d = Df.category_co d
        /\ Df.color d = Df.color_co d).
Proof.
  intros r d i Hd Hi.
  pose proof (np_select_general_band (Df.aqi d) (fun j => derive_index_nonneg r d j Hd))
    as [Hcat Hcol].
  apply derive_inr in Hd as (Hpm & Hco & Haqi & Hc & Hk).
  rewrite Hc, Hk, Hcat, Hcol, Hi. cbn [reclassify].
  pose proof (row_max_spec [Df.aqi_pm25 d; Df.aqi_co d]) as Hspec.
  rewrite <- Haqi, Hi in Hspec. destruct Hspec as [[Hin|[Hin|[]]] _].
  - left. split; [exact Hin|]. rewrite Hin in Hpm.
    destruct (scan_category_band_binary64 _ _ _ _ _ pm25_in_tables Hpm) as [-> ->].
    split; reflexivity.
  - right. split; [exact Hin|]. rewrite Hin in Hco.
    destruct (scan_category_band_binary64 _ _ _ _ _ co_in_tables Hco) as [-> ->].
    split; reflexivity.
Qed.

(** The theorem at the reading of PM2.5 200 and CO 1, on floats. *)
Lemma overall_category_is_worst_pollutant_witness :
  (Some 250 = Some 250 /\ "Muy Insalubre" = "Muy Insalubre" /\ "#99004C" = "#99004C")
  \/ (Some 11 = Some 250 /\ "Muy Insalubre" = "Bueno" /\ "#99004C" = "#00E400").
Proof.
  exact (overall_category_is_worst_pollutant
           (Reading "2024-01-01 00:00:00" 200%float 0%float 1%float 20%float 50%float)
           (Df.Columns (Some 250) "Muy Insalubre" "#99004C"
                       (Some 11) "Bueno" "#00E400"
                       (Some 250) "Muy Insalubre" "#99004C")
           250 eq_refl eq_refl).
Defined.

Lemma scan_returns_binary64 (breakpoints : list breakpoint) (x : float) :
  (forall bp, In bp breakpoints -> In bp (breakpoints_pm25 ++ breakpoints_co)) ->
  exists res, scan_breakpoints breakpoints x = inr res.
Proof.
  intros Hsub.
  destruct (scan_binary64 breakpoints x Hsub) as [[_ Ho]|(bp & j & _ & Hj & _)];
    eexists; eassumption.
Qed.

(** X8.  On floats, whatever the cells of the two columns hold (a NaN of a
    missing cell and the infinities included), the block that adds the AQI
    columns raises nothing on a data frame that is not empty, and returns as
    many rows as the frame has. *)
Theorem add_aqi_columns_returns :
  forall df : list (reading float),
    df <> [] ->
    exists rows : list Df.columns,
      add_aqi_columns df = inr rows /\ List.length rows = List.length df.
Proof.
  intros df Hdf.
  destruct (series_apply_returns calculate_aqi_pm25 (map pm25 df))
    as (ps & Hps & Hlp).
  { intros c. apply scan_returns_binary64. exact pm25_in_tables. }
  destruct (series_apply_returns calculate_aqi_co (map co df))
    as (cs & Hcs & Hlc).
  { intros c. apply scan_returns_binary64. exact co_in_tables. }
  eexists. split; [exact (add_aqi_columns_inr df ps cs Hdf Hps Hcs)|].
  rewrite length_map, length_combine, Hlp, Hlc, !length_map. apply Nat.min_id.
Qed.

(** The theorem at a frame of two rows, the second with a missing PM2.5. *)
Lemma add_aqi_columns_returns_witness :
  exists rows : list Df.columns,
    add_aqi_columns [Reading "2024-01-01 00:00:00" 200%float 0%float 1%float 20%float 50%float;
                     Reading "2024-01-01 01:00:00" Binary64.NaN 0%float 5%float 20%float 50%float]
    = inr rows
    /\ List.length rows = 2%nat.
Proof.
  apply (add_aqi_columns_returns
           [Reading "2024-01-01 00:00:00" 200%float 0%float 1%float 20%float 50%float;
            Reading "2024-01-01 01:00:00" Binary64.NaN 0%float 5%float 20%float 50%float]).
  discriminate.
Defined.
